(** * CPI_automation: the multi-emulator runner of [main.py]

    A shallow embedding of the runner's port allocator, device
    enumeration, readiness loops, payload sequence, per-instance worker
    and orchestrator, followed by the properties its design document
    states about them.

    How the program is modelled:
    - Pure code (ports, names, parsing of the [adb devices] output) is
      written as functions.  A Python [set] of strings is a [gset
      string], [str(int)] is stdpp's [pretty].
    - Code with effects lives in the monad [M]: a function from a
      [World] to a [Result] and a new world.  The world carries a clock
      in milliseconds, the script of replies the outside gives to the
      external calls, the [proc_holder] dictionaries, and a log of the
      calls made, each stamped with the time it started.  The clock
      never runs backwards.
    - A [Result] is a normal return, a raised exception, [sys.exit], or
      [OutOfFuel].  The last one only arises in [poll_loop], whose fuel
      is shown to suffice (lemma [run_phase_outcome]).
    - Strings are sequences of code points below 256.  [print] and the
      creation and joining of threads never fail; the internals of
      [fresh_clone_avd] are one fallible external call, its two
      text-rewriting loops being modelled on their own ([ini_writes],
      [config_writes]).
    - The threads are modelled twice: [instance_worker] is the body of
      one worker on its own, and [sys_step] interleaves [main] with all
      workers at the grain of the worker's stages.  Lemma
      [instance_worker_drive] relates the two. *)

From Stdlib Require Import ZArith List Ascii Lia Bool.
From stdpp Require Import base tactics option list gmap sets strings pretty.

Open Scope Z_scope.

(** ** Python built-ins used by the runner *)

Module Py.

(** [str(n)] for an integer: decimal digits, a leading minus sign for
    negative numbers. *)
Definition str_int (n : Z) : string := pretty n.

(** [range(start, stop, step)] for a positive step. *)
Definition range (start stop step : Z) : list Z :=
  (fun i : nat => start + step * Z.of_nat i)
    <$> seq 0 (Z.to_nat ((stop - start + step - 1) / step)).

(** [range(n)]. *)
Definition range0 (n : Z) : list Z := range 0 n 1.

(** [c.isspace()] on the code points below 256. *)
Definition isspace (c : ascii) : bool :=
  let n := nat_of_ascii c in
  ((9 <=? n) && (n <=? 13) || (28 <=? n) && (n <=? 32)
   || (n =? 133) || (n =? 160))%nat.

(** The line boundaries of [str.splitlines] below 256, a lone
    carriage return included. *)
Definition islinebreak (c : ascii) : bool :=
  let n := nat_of_ascii c in
  ((10 <=? n) && (n <=? 13) || (28 <=? n) && (n <=? 30) || (n =? 133))%nat.

Fixpoint lstrip (s : string) : string :=
  match s with
  | String c rest => if isspace c then lstrip rest else s
  | EmptyString => s
  end.

(** [s.strip()]. *)
Definition strip (s : string) : string :=
  String.rev (lstrip (String.rev (lstrip s))).

Definition flush (cur : string) : list string :=
  match cur with
  | EmptyString => []
  | _ => [String.rev cur]
  end.

(** [cur] holds the characters of the current word, last one first. *)
Fixpoint split_go (cur : string) (s : string) : list string :=
  match s with
  | EmptyString => flush cur
  | String c rest =>
      if isspace c then flush cur ++ split_go EmptyString rest
      else split_go (String c cur) rest
  end.

(** [s.split()]: the maximal runs of non-whitespace characters. *)
Definition split (s : string) : list string := split_go EmptyString s.

Fixpoint splitlines_go (cur : string) (s : string) : list string :=
  match s with
  | EmptyString => flush cur
  | String c rest =>
      if islinebreak c then
        String.rev cur ::
          match c, rest with
          | "013"%char, String "010"%char rest' =>
              splitlines_go EmptyString rest'
          | _, _ => splitlines_go EmptyString rest
          end
      else splitlines_go (String c cur) rest
  end.

(** [s.splitlines()]: a carriage return followed by a line feed is one
    boundary, and no empty line follows the last boundary. *)
Definition splitlines (s : string) : list string :=
  splitlines_go EmptyString s.

(** A string is true when it is not empty. *)
Definition truthy (s : string) : bool :=
  match s with EmptyString => false | _ => true end.

(** [o or ""] for a value that is [None] or a string. *)
Definition or_empty (o : option string) : string :=
  match o with Some s => s | None => EmptyString end.

(** [str(o)] for a value that is [None] or a string. *)
Definition str_opt (o : option string) : string :=
  match o with Some s => s | None => "None" end.

(** [repr] of a string without quotes, backslashes or control
    characters, and of a list of such strings. *)
Definition repr_str (s : string) : string := "'" +:+ s +:+ "'".

Fixpoint join (sep : string) (l : list string) : string :=
  match l with
  | [] => EmptyString
  | [x] => x
  | x :: rest => x +:+ sep +:+ join sep rest
  end.

Definition repr_list (l : list string) : string :=
  "[" +:+ join ", " (repr_str <$> l) +:+ "]".

Fixpoint strip_prefix (pre s : string) : option string :=
  match pre, s with
  | EmptyString, _ => Some s
  | String a pre', String b s' =>
      if bool_decide (a = b) then strip_prefix pre' s' else None
  | String _ _, EmptyString => None
  end.

Fixpoint replace_go (fuel : nat) (old new s : string) : string :=
  match fuel with
  | O => s
  | S fuel' =>
      match strip_prefix old s with
      | Some rest => new +:+ replace_go fuel' old new rest
      | None =>
          match s with
          | EmptyString => EmptyString
          | String c rest => String c (replace_go fuel' old new rest)
          end
      end
  end.

(** [s.replace(old, new)] for a non-empty [old]: every step consumes
    at least one character of [s]. *)
Definition replace (s old new : string) : string :=
  replace_go (S (String.length s)) old new s.

Definition digit_of (c : ascii) : option Z :=
  let n := nat_of_ascii c in
  if ((48 <=? n) && (n <=? 57))%nat then Some (Z.of_nat n - 48) else None.

(** Decimal digits, single underscores allowed between digits. *)
Fixpoint digits_go (acc : Z) (after_digit : bool) (s : string)
  : option Z :=
  match s with
  | EmptyString => if after_digit then Some acc else None
  | String c rest =>
      match digit_of c with
      | Some d => digits_go (10 * acc + d) true rest
      | None =>
          if bool_decide (c = "_"%char) && after_digit
          then digits_go acc false rest
          else None
      end
  end.

(** [int(s)] on ASCII input; [None] stands for [ValueError]. *)
Definition int_of_str (s : string) : option Z :=
  match strip s with
  | String "-" rest => Z.opp <$> digits_go 0 false rest
  | String "+" rest => digits_go 0 false rest
  | t => digits_go 0 false t
  end.

End Py.

(** ** Exceptions and results

    Only subclasses of [Exception] are represented: they are what the
    runner's [except Exception] clauses are written for.  [sys.exit]
    is the [Exit] result, which no [except Exception] clause catches. *)

Inductive exn_class : Set :=
| RuntimeError | TimeoutError | FileNotFoundError | OSError
| ValueError | SubprocessError.

Record exn : Set := Exn { exn_cls : exn_class; exn_msg : string }.

(** [str(e)]. *)
Definition str_exn (e : exn) : string := exn_msg e.

Inductive Result (A : Type) : Type :=
| Ok (a : A)
| Raise (e : exn)
| Exit (code : Z)
| OutOfFuel.

Arguments Ok {A} a.
Arguments Raise {A} e.
Arguments Exit {A} code.
Arguments OutOfFuel {A}.

Definition result_bind {A B} (r : Result A) (k : A -> Result B) : Result B :=
  match r with
  | Ok a => k a
  | Raise e => Raise e
  | Exit c => Exit c
  | OutOfFuel => OutOfFuel
  end.

(** ** Configuration constants *)

Definition BASE_AVD : string := "MyAVD3".
Definition APK_PATH : string := "C:\ac\grab-5-367-200.apk".
Definition PACKAGE_NAME : string := "com.grabtaxi.passenger".
Definition RUN_TIME : Z := 180.
Definition BOOT_TIMEOUT : Z := 420.
Definition CONCURRENT_LIMIT : Z := 2.
Definition KEEP_EMULATORS : bool := true.
Definition LOG_DIR : string := "emulator_logs".
Definition BASE_URL : string :=
  "https://adswedmedia.com/redirect/manual-offer/1131/user/{userId}/site/Hh1Gk5".

(** ** Resource allocation *)

(** The endpoint identifier derived from a console port,
    [f"emulator-{port}"]. *)
Definition serial_of (port : Z) : string := "emulator-" +:+ Py.str_int port.

(** The scan order of [find_free_emulator_port]:
    [range(5554, 5684, 2)]. *)
Definition port_range : list Z := Py.range 5554 5684 2.

(** The [for] loop of [find_free_emulator_port]: the first port of
    [ports] whose serial is not occupied. *)
Fixpoint first_free (ports : list Z) (occupied_serials : gset string)
  : option Z :=
  match ports with
  | [] => None
  | port :: rest =>
      if bool_decide (serial_of port ∉ occupied_serials)
      then Some port
      else first_free rest occupied_serials
  end.

Definition find_free_emulator_port (occupied_serials : gset string)
  : Result Z :=
  match first_free port_range occupied_serials with
  | Some port => Ok port
  | None => Raise (Exn RuntimeError "No free emulator ports available")
  end.

(** [main], line 217: the clone names. *)
Definition avd_names_of (total : Z) : list string :=
  (fun i => BASE_AVD +:+ "_copy" +:+ Py.str_int (i + 1)) <$> Py.range0 total.

(** [main], lines 225-228: one port per name, each chosen against the
    snapshot [existing] and the ports reserved so far. *)
Fixpoint reserve_ports (existing : gset string) (avd_names : list string)
    (reserved_ports : list Z) : Result (list Z) :=
  match avd_names with
  | [] => Ok reserved_ports
  | _ :: rest =>
      result_bind
        (find_free_emulator_port
           (existing ∪ list_to_set (serial_of <$> reserved_ports)))
        (fun port => reserve_ports existing rest (reserved_ports ++ [port]))
  end.

(** [main], lines 225-234: the Instance Plans of a run,
    [zip(avd_names, reserved_ports)]. *)
Definition plan_instances (avd_names : list string) (existing : gset string)
  : Result (list (string * Z)) :=
  result_bind (reserve_ports existing avd_names [])
    (fun reserved_ports => Ok (zip avd_names reserved_ports)).

(** The ports of the range that the snapshot leaves free, in scan
    order. *)
Definition free_ports (existing : gset string) : list Z :=
  filter (fun port => serial_of port ∉ existing) port_range.


(** ** The outside world

    Every call that leaves the interpreter (a subprocess, the file
    system, the semaphore, the random generator, the terminal) is
    answered by the next [Reply] of the world's script.  The clock
    counts milliseconds and never runs backwards. *)

Record Reply : Set := {
  latency : N;            (* milliseconds the call takes *)
  fault : option exn;     (* the exception the call raises, if any *)
  returncode : Z;
  stdout : string;
  stderr : string;
  number : Z;             (* raw material of a random draw *)
  running : bool;         (* a polled process has not exited *)
  handle : option nat     (* what a finished worker left in its holder *)
}.

Inductive Event : Set :=
| EvPrint (line : string)
| EvInput (prompt : string)
| EvRun (cmd : list string) (capture_output : bool)
| EvOpen (path : string)
| EvPopen (cmd : list string) (logfile : string)
| EvSleep (seconds : Z)
| EvRandint (lo hi : Z)
| EvAcquire
| EvRelease
| EvClone (new_name : string)
| EvSemaphore (value : Z)
| EvThreadStart (avd_name : string) (port : Z) (proc_holder : nat)
| EvJoin (avd_name : string)
| EvPoll (proc : nat)
| EvTerminate (proc : nat).

(** The dictionary [proc_holder] each worker fills in. *)
Record ProcHolder : Set := {
  ph_proc : option nat;
  ph_log : option string
}.

Record World : Type := {
  clock : Z;
  calls : nat;
  script : nat -> Reply;
  heap : list ProcHolder;
  log : list (Z * Event)
}.

Definition M (A : Type) : Type := World -> Result A * World.

Definition ret {A} (a : A) : M A := fun w => (Ok a, w).

Definition bind {A B} (m : M A) (k : A -> M B) : M B :=
  fun w =>
    match m w with
    | (Ok a, w') => k a w'
    | (Raise e, w') => (Raise e, w')
    | (Exit c, w') => (Exit c, w')
    | (OutOfFuel, w') => (OutOfFuel, w')
    end.

Notation "'do' x <- m ; k" := (bind m (fun x => k))
  (at level 10, x name, m at level 100, k at level 200,
   format "'[v' 'do'  x  <-  m ; '/' k ']'").
Notation "'do_' m ; k" := (bind m (fun _ => k))
  (at level 10, m at level 100, k at level 200,
   format "'[v' 'do_'  m ; '/' k ']'").

Definition raise {A} (e : exn) : M A := fun w => (Raise e, w).
Definition sys_exit {A} (code : Z) : M A := fun w => (Exit code, w).
Definition out_of_fuel {A} : M A := fun w => (OutOfFuel, w).
Definition lift {A} (r : Result A) : M A := fun w => (r, w).

(** [try: body / except Exception as e: handler e]. *)
Definition try_except {A} (body : M A) (handler : exn -> M A) : M A :=
  fun w =>
    match body w with
    | (Raise e, w') => handler e w'
    | other => other
    end.

Definition emit (e : Event) (w : World) : World :=
  {| clock := clock w; calls := calls w; script := script w;
     heap := heap w; log := log w ++ [(clock w, e)] |}.

Definition advance (ms : Z) (w : World) : World :=
  {| clock := clock w + ms; calls := S (calls w); script := script w;
     heap := heap w; log := log w |}.

(** An external call: logged when it starts, answered by the next
    reply, finished [latency] milliseconds later. *)
Definition external (e : Event) : M Reply :=
  fun w =>
    let r := script w (calls w) in
    let w' := advance (Z.of_N (latency r)) (emit e w) in
    match fault r with
    | Some err => (Raise err, w')
    | None => (Ok r, w')
    end.

(** An external call that cannot raise. *)
Definition external_total (e : Event) : M Reply :=
  fun w =>
    let r := script w (calls w) in
    (Ok r, advance (Z.of_N (latency r)) (emit e w)).

(** [time.time()], in milliseconds. *)
Definition time_time : M Z := fun w => (Ok (clock w), w).

(** [time.sleep(seconds)]: the call is logged, then a negative length
    is refused. *)
Definition time_sleep (seconds : Z) : M unit :=
  fun w =>
    let w1 := emit (EvSleep seconds) w in
    if bool_decide (seconds < 0)
    then (Raise (Exn ValueError "sleep length must be non-negative"), w1)
    else
      (Ok tt,
       {| clock := clock w1 + 1000 * seconds; calls := calls w1;
          script := script w1; heap := heap w1; log := log w1 |}).

Definition print (line : string) : M unit :=
  fun w => (Ok tt, emit (EvPrint line) w).

(** [random.randint(lo, hi)]. *)
Definition random_randint (lo hi : Z) : M Z :=
  do r <- external_total (EvRandint lo hi);
  ret (lo + number r `mod` (hi - lo + 1)).

Definition semaphore_acquire : M unit :=
  do_ external EvAcquire; ret tt.

Definition semaphore_release : M unit :=
  fun w => (Ok tt, emit EvRelease w).

(** [proc_holder = {}]: a fresh dictionary, named by its address. *)
Definition new_proc_holder : M nat :=
  fun w =>
    (Ok (length (heap w)),
     {| clock := clock w; calls := calls w; script := script w;
        heap := heap w ++ [{| ph_proc := None; ph_log := None |}];
        log := log w |}).

Definition update_holder (ref : nat) (f : ProcHolder -> ProcHolder)
  : M unit :=
  fun w =>
    (Ok tt,
     {| clock := clock w; calls := calls w; script := script w;
        heap := alter f ref (heap w); log := log w |}).

Definition read_holder (ref : nat) : M ProcHolder :=
  fun w =>
    (Ok (default {| ph_proc := None; ph_log := None |} (heap w !! ref)), w).

(** ** The command channel *)

Record CompletedProcess : Set := {
  cp_args : list string;
  cp_returncode : Z;
  cp_stdout : option string;
  cp_stderr : option string
}.

(** [subprocess.run(cmd, check=False, capture_output=..., text=True)];
    no caller passes a timeout. *)
Definition run_cmd (cmd : list string) (capture_output : bool)
  : M CompletedProcess :=
  do r <- external (EvRun cmd capture_output);
  ret {| cp_args := cmd;
         cp_returncode := returncode r;
         cp_stdout := if capture_output then Some (stdout r) else None;
         cp_stderr := if capture_output then Some (stderr r) else None |}.

(** The loop of [list_adb_devices] over the lines after the first. *)
Definition add_device (devs : gset string) (line : string) : gset string :=
  match Py.split line with
  | serial :: state :: _ =>
      if bool_decide (state = "device") then devs ∪ {[ serial ]} else devs
  | _ => devs
  end.

Definition devices_of_output (out : string) : gset string :=
  let lines := Py.splitlines (Py.strip out) in
  foldl add_device ∅ (drop 1 lines).

Definition list_adb_devices : M (gset string) :=
  do r <- try_except
            (do r <- run_cmd ["adb"; "devices"] true; ret (Some r))
            (fun _ => ret None);
  match r with
  | None => ret ∅
  | Some r => ret (devices_of_output (Py.or_empty (cp_stdout r)))
  end.

(** ** Process launch *)

(** [subprocess.Popen(...)]; the handle is the index of the call. *)
Definition popen (cmd : list string) (logfile : string) : M nat :=
  fun w =>
    match external (EvPopen cmd logfile) w with
    | (Ok _, w') => (Ok (calls w), w')
    | (Raise e, w') => (Raise e, w')
    | (Exit c, w') => (Exit c, w')
    | (OutOfFuel, w') => (OutOfFuel, w')
    end.

Definition start_emulator_detached (avd_name : string) (port : Z)
  : M (nat * string) :=
  let logfile := LOG_DIR +:+ "/" +:+ avd_name +:+ ".log" in
  let cmd := ["emulator"; "-avd"; avd_name; "-port"; Py.str_int port;
              "-no-snapshot-load"] in
  do_ print ("[start] " +:+ avd_name +:+ " port=" +:+ Py.str_int port
             +:+ " -> " +:+ Py.repr_list cmd);
  do_ external (EvOpen logfile);
  do proc <- popen cmd logfile;
  ret (proc, logfile).

(** ** Readiness waiting *)

(** The shape both readiness loops share,
    [while time.time() - start < timeout: <probe, return True on a hit>;
     time.sleep(2)] followed by [raise TimeoutError(...)].  Every pass
    sleeps two seconds, so [fuel] passes are enough when [fuel] is at
    least half the timeout. *)
Fixpoint poll_loop (fuel : nat) (start timeout : Z) (probe : M bool)
    (expired : exn) : M bool :=
  do now <- time_time;
  if bool_decide (now - start < timeout * 1000) then
    match fuel with
    | O => out_of_fuel
    | S fuel' =>
        do hit <- probe;
        if hit then ret true
        else do_ time_sleep 2; poll_loop fuel' start timeout probe expired
    end
  else raise expired.

Definition serial_probe (serial : string) : M bool :=
  do devs <- list_adb_devices;
  ret (bool_decide (serial ∈ devs)).

Definition wait_for_serial (serial : string) (timeout : Z) : M bool :=
  do start <- time_time;
  poll_loop (Z.to_nat timeout) start timeout (serial_probe serial)
    (Exn TimeoutError
       (serial +:+ " did not appear in adb devices within "
        +:+ Py.str_int timeout +:+ "s")).

(** The [try] block inside the loop of [wait_for_boot_complete]. *)
Definition boot_probe (serial : string) : M bool :=
  try_except
    (do r <- run_cmd ["adb"; "-s"; serial; "shell"; "getprop";
                      "sys.boot_completed"] true;
     if Py.truthy (Py.or_empty (cp_stdout r))
        && bool_decide (Py.strip (Py.or_empty (cp_stdout r)) = "1")
     then do_ print ("[boot] " +:+ serial +:+ " boot complete."); ret true
     else ret false)
    (fun _ => ret false).

Definition wait_for_boot_complete (serial : string) (timeout : Z)
  : M bool :=
  do start <- time_time;
  poll_loop (Z.to_nat timeout) start timeout (boot_probe serial)
    (Exn TimeoutError
       (serial +:+ " did not finish boot within "
        +:+ Py.str_int timeout +:+ "s")).

(** ** The payload sequence *)

Definition open_cpi_and_install (serial apk_path package_name : string)
    (run_time : Z) : M unit :=
  do user_id <- random_randint 100000 200000;
  let url := Py.replace BASE_URL "{userId}" (Py.str_int user_id) in
  do_ print ("[task] " +:+ serial +:+ " opening CPI link: " +:+ url);
  do_ run_cmd ["adb"; "-s"; serial; "shell"; "am"; "start"; "-a";
               "android.intent.action.VIEW"; "-d"; url] false;
  do_ time_sleep 30;
  do_ print ("[task] " +:+ serial +:+ " installing APK: " +:+ apk_path);
  do r <- run_cmd ["adb"; "-s"; serial; "install"; "-r"; apk_path] true;
  do_ print ("[adb install] " +:+ serial +:+ " stdout: "
             +:+ Py.str_opt (cp_stdout r) +:+ "; stderr: "
             +:+ Py.str_opt (cp_stderr r));
  do_ time_sleep 10;
  do_ print ("[task] " +:+ serial +:+ " launching app " +:+ package_name);
  do_ run_cmd ["adb"; "-s"; serial; "shell"; "monkey"; "-p"; package_name;
               "-c"; "android.intent.category.LAUNCHER"; "1"] false;
  do_ print ("[task] " +:+ serial +:+ " keeping app open for "
             +:+ Py.str_int run_time +:+ "s");
  do_ time_sleep run_time;
  print ("[task] " +:+ serial +:+ " finished workflow.").

(** ** The per-instance worker *)

(** The [try] block of [instance_worker] after the permit is taken. *)
Definition worker_stages (avd_name : string) (port : Z) (proc_holder : nat)
  : M unit :=
  do started <- start_emulator_detached avd_name port;
  do_ update_holder proc_holder
        (fun h => {| ph_proc := Some (fst started); ph_log := ph_log h |});
  do_ update_holder proc_holder
        (fun h => {| ph_proc := ph_proc h; ph_log := Some (snd started) |});
  let serial := serial_of port in
  do_ print ("[worker] Waiting for serial " +:+ serial +:+ " to appear.");
  do_ wait_for_serial serial BOOT_TIMEOUT;
  do_ print ("[worker] " +:+ serial +:+ " present - waiting for boot.");
  do_ wait_for_boot_complete serial BOOT_TIMEOUT;
  open_cpi_and_install serial APK_PATH PACKAGE_NAME RUN_TIME.

(** The local variable [acquired] is threaded by hand: the [finally]
    block reads the value it had when the [try] block was left. *)
Definition instance_worker (avd_name : string) (port : Z)
    (proc_holder : nat) : M unit :=
  fun w =>
    let acquired := false in
    (* try: *)
    let '(r, acquired, w) :=
      match semaphore_acquire w with
      | (Ok _, w) =>
          let acquired := true in
          let '(r, w) := worker_stages avd_name port proc_holder w in
          (r, acquired, w)
      | (r, w) => (r, acquired, w)
      end in
    (* except Exception as e: *)
    let '(r, w) :=
      match r with
      | Raise e =>
          print ("[ERROR] instance " +:+ avd_name +:+ " (port "
                 +:+ Py.str_int port +:+ ") failed: " +:+ str_exn e) w
      | _ => (r, w)
      end in
    (* finally: *)
    match r with
    | OutOfFuel => (OutOfFuel, w)
    | _ =>
        if acquired
        then match semaphore_release w with
             | (Ok _, w) => (r, w)
             | (r', w) => (r', w)
             end
        else (r, w)
    end.

(** ** The orchestrator *)

(** [fresh_clone_avd]: file-system work, seen here as one external call
    that may raise. *)
Definition fresh_clone_avd (new_name : string) : M unit :=
  do_ external (EvClone new_name);
  print ("[clone] " +:+ BASE_AVD +:+ " -> " +:+ new_name
         +:+ " (fresh) done.").

Fixpoint for_each {A} (l : list A) (body : A -> M unit) : M unit :=
  match l with
  | [] => ret tt
  | x :: rest => do_ body x; for_each rest body
  end.

(** [int(input(prompt).strip() or "1")]. *)
Definition read_total : M Z :=
  do r <- external (EvInput "How many instances to run (total): ");
  let typed := Py.strip (stdout r) in
  match Py.int_of_str (if Py.truthy typed then typed else "1") with
  | Some n => ret n
  | None => raise (Exn ValueError "invalid literal for int() with base 10")
  end.

(** [main], lines 234-241: one thread per plan, started one second
    apart. *)
Fixpoint start_workers (plans : list (string * Z))
  : M (list (string * Z * nat)) :=
  match plans with
  | [] => ret []
  | (name, port) :: rest =>
      do proc_holder <- new_proc_holder;
      do_ external_total (EvThreadStart name port proc_holder);
      do_ time_sleep 1;
      do procs_info <- start_workers rest;
      ret ((name, port, proc_holder) :: procs_info)
  end.

(** [t.join()]: returns when the worker has finished, whatever its
    outcome; what the worker stored in its holder is visible from then
    on. *)
Definition thread_join (info : string * Z * nat) : M unit :=
  let '(name, _, proc_holder) := info in
  do r <- external_total (EvJoin name);
  update_holder proc_holder
    (fun h => {| ph_proc := handle r; ph_log := ph_log h |}).

(** [main], lines 252-263. *)
Definition terminate_one (info : string * Z * nat) : M unit :=
  let '(_, port, proc_holder) := info in
  do h <- read_holder proc_holder;
  match ph_proc h with
  | None => ret tt
  | Some proc =>
      do r <- external_total (EvPoll proc);
      if running r then
        try_except
          (do_ run_cmd ["adb"; "-s"; serial_of port; "emu"; "kill"] false;
           ret tt)
          (fun _ =>
             try_except (do_ external (EvTerminate proc); ret tt)
               (fun _ => ret tt))
      else ret tt
  end.

(** [main], lines 207-224: the requested total, the clones and the
    snapshot of live endpoints. *)
Definition prepare_run : M (list string * gset string) :=
  do total <- try_except read_total
                (fun _ => do_ print "Invalid number."; sys_exit 1);
  if bool_decide (total < 1) then
    do_ print "At least 1 instance required."; sys_exit 1
  else
    let avd_names := avd_names_of total in
    do_ print "[step] Preparing clones...";
    do_ for_each avd_names fresh_clone_avd;
    do existing <- list_adb_devices;
    ret (avd_names, existing).

(** [main], lines 230-264: the workers are started and awaited, then
    the retention policy is applied. *)
Definition launch_and_wait (plans : list (string * Z)) : M unit :=
  do_ external_total (EvSemaphore CONCURRENT_LIMIT);
  do procs_info <- start_workers plans;
  do_ for_each procs_info thread_join;
  do_ print "All instance threads finished.";
  do_ (if KEEP_EMULATORS then
         print "Emulators were left running. To clean up later, use 'adb -s emulator-<port> emu kill' or delete clones."
       else
         do_ print "Attempting to terminate emulators we started...";
         for_each procs_info terminate_one);
  print "Script complete.".

Definition main : M unit :=
  do prepared <- prepare_run;
  let avd_names := fst prepared in
  let existing := snd prepared in
  do plans <- lift (plan_instances avd_names existing);
  launch_and_wait plans.

(** The exit status of the interpreter after [main]. *)
Definition exit_status (r : Result unit) : option Z :=
  match r with
  | Ok _ => Some 0
  | Raise _ => Some 1
  | Exit code => Some code
  | OutOfFuel => None
  end.

(** ** Scripted worlds *)

(** A call that succeeds at once and says nothing. *)
Definition quiet : Reply :=
  {| latency := 0; fault := None; returncode := 0; stdout := "";
     stderr := ""; number := 0; running := false; handle := None |}.

(** A call that takes [ms] milliseconds and prints [out]. *)
Definition says (ms : N) (out : string) : Reply :=
  {| latency := ms; fault := None; returncode := 0; stdout := out;
     stderr := ""; number := 0; running := false; handle := None |}.

(** A call that takes [ms] milliseconds and raises [e]. *)
Definition fails (ms : N) (e : exn) : Reply :=
  {| latency := ms; fault := Some e; returncode := 1; stdout := "";
     stderr := ""; number := 0; running := false; handle := None |}.

(** The world that starts at time [t0] and answers with [replies], then
    with [after] for ever. *)
Definition scripted (t0 : Z) (replies : list Reply) (after : Reply)
  : World :=
  {| clock := t0; calls := 0;
     script := fun i => default after (replies !! i);
     heap := []; log := [] |}.

(** An event by which an instance comes to life: a worker thread is
    started, a permit is taken, an emulator process is spawned. *)
Definition launches (e : Event) : bool :=
  match e with
  | EvThreadStart _ _ _ | EvAcquire | EvOpen _ | EvPopen _ _ => true
  | _ => false
  end.

(** An operation on the permit pool. *)
Definition on_semaphore (e : Event) : bool :=
  match e with
  | EvAcquire | EvRelease => true
  | _ => false
  end.

Definition off_semaphore (e : Event) : bool := negb (on_semaphore e).

(** A poll of the command channel. *)
Definition polls (e : Event) : bool :=
  match e with
  | EvRun _ _ => true
  | _ => false
  end.

(** The text [adb devices] prints for the given serials and states. *)
Definition adb_devices_output (devices : list (string * string)) : string :=
  "List of devices attached" +:+ String "010" ""
  +:+ foldr (fun d out =>
               d.1 +:+ String "009" "" +:+ d.2 +:+ String "010" "" +:+ out)
        (String "010" "") devices.

(** A world in which one instance is requested while every port of the
    range already belongs to a live emulator. *)
Definition crowded_world : World :=
  scripted 0
    [says 0 "1"; quiet;
     says 40 (adb_devices_output
                ((fun port => (serial_of port, "device")) <$> port_range))]
    quiet.

(** The milestones of a worker's run: its result and, in order, what
    it did to the permit pool. *)
Definition milestones (run : Result unit * World)
  : Result unit * list Event :=
  (run.1, List.filter on_semaphore (log run.2).*2).

(** What a run leaves behind, without the script. *)
Definition observe {A} (run : Result A * World)
  : Result A * Z * nat * list (Z * Event) :=
  (fst run, clock (snd run), calls (snd run), log (snd run)).

(** ** Vocabulary of the readiness properties *)

(** What one poll of the discovery phase sees in a reply. *)
Definition sees (serial : string) (r : Reply) : bool :=
  match fault r with
  | Some _ => false
  | None => bool_decide (serial ∈ devices_of_output (stdout r))
  end.

(** What one poll of the boot phase makes of a reply. *)
Definition booted (r : Reply) : bool :=
  match fault r with
  | Some _ => false
  | None => Py.truthy (stdout r) && bool_decide (Py.strip (stdout r) = "1")
  end.

Definition serial_trace (t : Z) (r : Reply) : list (Z * Event) :=
  [(t, EvRun ["adb"; "devices"] true)].

Definition boot_trace (serial : string) (t : Z) (r : Reply)
  : list (Z * Event) :=
  (t, EvRun ["adb"; "-s"; serial; "shell"; "getprop"; "sys.boot_completed"]
        true)
  :: if booted r
     then [(t + Z.of_N (latency r),
            EvPrint ("[boot] " +:+ serial +:+ " boot complete."))]
     else [].

(** The world after one poll that logs [trace]. *)
Definition probed (trace : Z -> Reply -> list (Z * Event)) (w : World)
  : World :=
  let r := script w (calls w) in
  {| clock := clock w + Z.of_N (latency r); calls := S (calls w);
     script := script w; heap := heap w;
     log := log w ++ trace (clock w) r |}.

(** The world after [time.sleep(2)]. *)
Definition slept (w : World) : World :=
  {| clock := clock w + 2000; calls := calls w; script := script w;
     heap := heap w; log := log w ++ [(clock w, EvSleep 2)] |}.

(** The world after [k] polls that missed, each followed by its sleep. *)
Fixpoint after_misses (trace : Z -> Reply -> list (Z * Event)) (k : nat)
    (w : World) : World :=
  match k with
  | O => w
  | S k' => after_misses trace k' (slept (probed trace w))
  end.

(** The time at which the loop tests its condition for the [k]-th time
    (counting from 0) when no earlier poll hit: two seconds of sleep
    and the latency of the call for every earlier poll. *)
Fixpoint elapse (script : nat -> Reply) (from k : nat) : Z :=
  match k with
  | O => 0
  | S k' => Z.of_N (latency (script from)) + 2000 + elapse script (S from) k'
  end.

Definition pass_time (w : World) (k : nat) : Z :=
  clock w + elapse (script w) (calls w) k.

(** The two phases of the readiness waiter. *)
Inductive Phase : Set := Discovery | Boot.

Definition run_phase (ph : Phase) (serial : string) (timeout : Z) : M bool :=
  match ph with
  | Discovery => wait_for_serial serial timeout
  | Boot => wait_for_boot_complete serial timeout
  end.

Definition phase_hit (ph : Phase) (serial : string) (r : Reply) : bool :=
  match ph with
  | Discovery => sees serial r
  | Boot => booted r
  end.

Definition phase_error (ph : Phase) (serial : string) (timeout : Z) : exn :=
  Exn TimeoutError
    (serial +:+
     match ph with
     | Discovery => " did not appear in adb devices within "
     | Boot => " did not finish boot within "
     end +:+ Py.str_int timeout +:+ "s").

Definition phase_trace (ph : Phase) (serial : string)
  : Z -> Reply -> list (Z * Event) :=
  match ph with
  | Discovery => serial_trace
  | Boot => boot_trace serial
  end.

Definition phase_probe (ph : Phase) (serial : string) : M bool :=
  match ph with
  | Discovery => serial_probe serial
  | Boot => boot_probe serial
  end.

(** The boot query of the scenario of C4. *)
Definition getprop_cmd (serial : string) : list string :=
  ["adb"; "-s"; serial; "shell"; "getprop"; "sys.boot_completed"].

(** ** The threads and the permit pool

    The interleaving of [main] with its worker threads, at the grain of
    the worker's stages.  A stage is one step whose outcome, return or
    raise, is chosen by the schedule: this covers whatever the stage
    does in any world.  [threading.Semaphore]: [acquire] blocks while
    the counter is 0 and decrements it, [release] increments it. *)

Inductive WorkerPc : Set :=
| AtAcquire              (* about to call semaphore.acquire() *)
| AtLaunch               (* start_emulator_detached *)
| AtDiscovery            (* wait_for_serial *)
| AtBoot                 (* wait_for_boot_complete *)
| AtPayload              (* open_cpi_and_install *)
| AtExcept (e : exn)     (* the except clause *)
| AtFinally              (* the finally clause *)
| Finished.

Record Worker : Set := {
  w_name : string;
  w_port : Z;
  w_pc : WorkerPc;
  w_acquired : bool       (* the local variable [acquired] *)
}.

Inductive MainPc : Set :=
| Starting (pending : list (string * Z))   (* the loop that starts threads *)
| Joining (next : nat)                     (* the loop of t.join() *)
| Done.                                    (* "Script complete." *)

Record System : Set := {
  permits : nat;          (* the counter of the semaphore *)
  main_pc : MainPc;
  workers : list Worker
}.

Definition initial (limit : nat) (plans : list (string * Z)) : System :=
  {| permits := limit; main_pc := Starting plans; workers := [] |}.

Definition at_pc (wk : Worker) (pc : WorkerPc) (acquired : bool) : Worker :=
  {| w_name := w_name wk; w_port := w_port wk; w_pc := pc;
     w_acquired := acquired |}.

(** One stage of [instance_worker]: the new counter and worker, or
    [None] when the worker cannot move (blocked in [acquire], or
    finished). *)
Definition worker_step (counter : nat) (wk : Worker) (outcome : option exn)
  : option (nat * Worker) :=
  let next pc :=
    match outcome with
    | None => Some (counter, at_pc wk pc (w_acquired wk))
    | Some e => Some (counter, at_pc wk (AtExcept e) (w_acquired wk))
    end in
  match w_pc wk with
  | AtAcquire =>
      match outcome with
      | None =>
          match counter with
          | O => None
          | S n => Some (n, at_pc wk AtLaunch true)
          end
      | Some e => Some (counter, at_pc wk (AtExcept e) (w_acquired wk))
      end
  | AtLaunch => next AtDiscovery
  | AtDiscovery => next AtBoot
  | AtBoot => next AtPayload
  | AtPayload => next AtFinally
  | AtExcept _ => Some (counter, at_pc wk AtFinally (w_acquired wk))
  | AtFinally =>
      if w_acquired wk
      then Some (S counter, at_pc wk Finished (w_acquired wk))
      else Some (counter, at_pc wk Finished (w_acquired wk))
  | Finished => None
  end.

Definition is_finished (wk : Worker) : bool :=
  match w_pc wk with Finished => true | _ => false end.

(** What the schedule lets happen next. *)
Inductive Action : Set :=
| MainMoves
| WorkerMoves (i : nat) (outcome : option exn).

Definition sys_step (a : Action) (s : System) : option System :=
  match a with
  | MainMoves =>
      match main_pc s with
      | Starting ((name, port) :: rest) =>
          Some {| permits := permits s; main_pc := Starting rest;
                  workers := workers s ++
                    [{| w_name := name; w_port := port; w_pc := AtAcquire;
                        w_acquired := false |}] |}
      | Starting [] =>
          Some {| permits := permits s; main_pc := Joining 0;
                  workers := workers s |}
      | Joining next =>
          match workers s !! next with
          | Some wk =>
              if is_finished wk
              then Some {| permits := permits s; main_pc := Joining (S next);
                           workers := workers s |}
              else None
          | None =>
              Some {| permits := permits s; main_pc := Done;
                      workers := workers s |}
          end
      | Done => None
      end
  | WorkerMoves i outcome =>
      match workers s !! i with
      | None => None
      | Some wk =>
          match worker_step (permits s) wk outcome with
          | None => None
          | Some (counter, wk') =>
              Some {| permits := counter; main_pc := main_pc s;
                      workers := <[i := wk']> (workers s) |}
          end
      end
  end.

Fixpoint run_schedule (schedule : list Action) (s : System)
  : option System :=
  match schedule with
  | [] => Some s
  | a :: rest =>
      match sys_step a s with
      | Some s' => run_schedule rest s'
      | None => None
      end
  end.

(** What [instance_worker] does at each point of its body. *)
Definition stage_action (avd_name : string) (port : Z) (proc_holder : nat)
    (pc : WorkerPc) (acquired : bool) : M unit :=
  let serial := serial_of port in
  match pc with
  | AtAcquire => semaphore_acquire
  | AtLaunch =>
      do started <- start_emulator_detached avd_name port;
      do_ update_holder proc_holder
            (fun h => {| ph_proc := Some (fst started); ph_log := ph_log h |});
      update_holder proc_holder
        (fun h => {| ph_proc := ph_proc h; ph_log := Some (snd started) |})
  | AtDiscovery =>
      do_ print ("[worker] Waiting for serial " +:+ serial +:+ " to appear.");
      do_ wait_for_serial serial BOOT_TIMEOUT;
      ret tt
  | AtBoot =>
      do_ print ("[worker] " +:+ serial +:+ " present - waiting for boot.");
      do_ wait_for_boot_complete serial BOOT_TIMEOUT;
      ret tt
  | AtPayload => open_cpi_and_install serial APK_PATH PACKAGE_NAME RUN_TIME
  | AtExcept e =>
      print ("[ERROR] instance " +:+ avd_name +:+ " (port "
             +:+ Py.str_int port +:+ ") failed: " +:+ str_exn e)
  | AtFinally => if acquired then semaphore_release else ret tt
  | Finished => ret tt
  end.

(** One step of a worker on its own: the stage runs in the world, and
    the machine moves on with the outcome the stage had there. *)
Definition drive (proc_holder : nat) (st : nat * Worker * World)
  : option (nat * Worker * World) :=
  let '(counter, wk, w) := st in
  let run := stage_action (w_name wk) (w_port wk) proc_holder (w_pc wk)
               (w_acquired wk) w in
  let outcome := match run.1 with Raise e => Some e | _ => None end in
  match worker_step counter wk outcome with
  | Some (counter', wk') => Some (counter', wk', run.2)
  | None => None
  end.

Fixpoint drive_all (fuel : nat) (proc_holder : nat)
    (st : nat * Worker * World) : nat * Worker * World :=
  match fuel with
  | O => st
  | S fuel' =>
      match drive proc_holder st with
      | Some st' => drive_all fuel' proc_holder st'
      | None => st
      end
  end.

(** The worker holds a permit: it has acquired one and has not yet left
    its [finally] clause. *)
Definition holds_permit (wk : Worker) : bool :=
  w_acquired wk && negb (is_finished wk).

(** The worker is past the launch stage and before its terminal
    state. *)
Definition past_launch (wk : Worker) : bool :=
  match w_pc wk with
  | AtDiscovery | AtBoot | AtPayload | AtExcept _ | AtFinally =>
      w_acquired wk
  | AtAcquire | AtLaunch | Finished => false
  end.

Fixpoint count {A} (f : A -> bool) (l : list A) : nat :=
  match l with
  | [] => 0
  | x :: rest => (if f x then 1 else 0) + count f rest
  end.

(** ** Vocabulary of the run properties *)

(** The result that leaves a block early, at another type. *)
Definition abort {A B} (r : Result A) : Result B :=
  match r with
  | Raise e => Raise e
  | Exit c => Exit c
  | Ok _ | OutOfFuel => OutOfFuel
  end.

(** [grows P w w']: [w'] is [w] after some more calls, later in time,
    with a longer log whose new events all satisfy [P]. *)
Definition grows (P : Event -> bool) (w w' : World) : Prop :=
  script w' = script w ∧
  clock w ≤ clock w' ∧
  (calls w ≤ calls w')%nat ∧
  ∃ new, log w' = log w ++ new ∧ Forall (fun te => P te.2 = true) new.

(** [logs P m]: whatever [m] does, it only logs events satisfying [P]. *)
Definition logs {A} (P : Event -> bool) (m : M A) : Prop :=
  ∀ w r w', m w = (r, w') → grows P w w'.

(** [succeeds m]: [m] returns normally in every world. *)
Definition succeeds {A} (m : M A) : Prop :=
  ∀ w, ∃ a w', m w = (Ok a, w').

(** [settles m]: [m] returns or raises, nothing else. *)
Definition settles {A} (m : M A) : Prop :=
  ∀ w r w', m w = (r, w') → (∃ a, r = Ok a) ∨ (∃ e, r = Raise e).

(** An event that brings no instance to life. *)
Definition no_launch (e : Event) : bool := negb (launches e).

(** Only a worker that has not acquired a permit waits in [acquire]. *)
Definition tidy (wk : Worker) : Prop :=
  w_pc wk = AtAcquire → w_acquired wk = false.

(** A world in which two instances are requested beside one live
    emulator; the first worker ends without a process, the second with
    one. *)
Definition uneven_world : World :=
  scripted 0
    [says 0 "2"; quiet; quiet;
     says 40 (adb_devices_output [("emulator-5554", "device")]);
     quiet; quiet; quiet;
     {| latency := 420000; fault := None; returncode := 0; stdout := "";
        stderr := ""; number := 0; running := false; handle := None |};
     {| latency := 1000; fault := None; returncode := 0; stdout := "";
        stderr := ""; number := 0; running := false; handle := Some 7%nat |}]
    quiet.

(** Three plans under a limit of two, run to the end: the first worker
    fails to launch, the second never sees its endpoint, the third
    completes its workflow after waiting for a permit. *)
Definition mixed_fortunes : list Action :=
  [MainMoves; MainMoves; MainMoves; MainMoves;
   WorkerMoves 0 None; WorkerMoves 1 None;
   WorkerMoves 0 (Some (Exn FileNotFoundError "emulator"));
   WorkerMoves 1 None;
   WorkerMoves 1 (Some (Exn TimeoutError "emulator-5556 did not appear"));
   WorkerMoves 0 None; WorkerMoves 0 None;
   WorkerMoves 2 None; WorkerMoves 2 None; WorkerMoves 2 None;
   WorkerMoves 2 None; WorkerMoves 2 None; WorkerMoves 2 None;
   WorkerMoves 1 None; WorkerMoves 1 None;
   MainMoves; MainMoves; MainMoves; MainMoves].

(** Three plans under a limit of two: the first two workers are waiting
    for their endpoints, the third is blocked in [acquire]. *)
Definition three_under_two : list Action :=
  [MainMoves; WorkerMoves 0 None; MainMoves; WorkerMoves 1 None;
   WorkerMoves 0 None; MainMoves; WorkerMoves 1 None; MainMoves].


(** ** Vocabulary of the further properties *)

(** A list whose entries grow with their position. *)
Definition ascending (l : list Z) : Prop :=
  ∀ (i j : nat) p q, l !! i = Some p → l !! j = Some q → (i < j)%nat → p < q.

(** What [main] reads as the requested total from the reply to
    [input]: [None] when the call or the conversion raises. *)
Definition typed_total (r : Reply) : option Z :=
  match fault r with
  | Some _ => None
  | None =>
      let typed := Py.strip (stdout r) in
      Py.int_of_str (if Py.truthy typed then typed else "1")
  end.

Fixpoint all_space (s : string) : bool :=
  match s with
  | EmptyString => true
  | String c rest => Py.isspace c && all_space rest
  end.

(** The world right after the question of [main] has been answered. *)
Definition asked (w : World) : World :=
  advance (Z.of_N (latency (script w (calls w))))
    (emit (EvInput "How many instances to run (total): ") w).


(** What the log shows of the start of one thread per plan, the
    dictionaries being numbered from [ref] on. *)
Fixpoint thread_starts (ref : nat) (plans : list (string * Z))
  : list Event :=
  match plans with
  | [] => []
  | (name, port) :: rest =>
      EvThreadStart name port ref :: EvSleep 1
        :: thread_starts (S ref) rest
  end.

(** [m] returns, raises, or exits with status 1. *)
Definition ends_well {A} (m : M A) : Prop :=
  ∀ w r w', m w = (r, w') →
    (∃ a, r = Ok a) ∨ (∃ e, r = Raise e) ∨ r = Exit 1.

(** The events a run has added to the log. *)
Definition added {A} (w : World) (run : Result A * World) : list Event :=
  (drop (length (log w)) (log run.2)).*2.

(** The list [procs_info] of [main] for [plans], the dictionaries being
    numbered from [ref] on. *)
Fixpoint procs_info_of (ref : nat) (plans : list (string * Z))
  : list (string * Z * nat) :=
  match plans with
  | [] => []
  | (name, port) :: rest => (name, port, ref) :: procs_info_of (S ref) rest
  end.

(** [m] leaves the [proc_holder] dictionaries as they are. *)
Definition keeps_heap {A} (m : M A) : Prop :=
  ∀ w r w', m w = (r, w') → heap w' = heap w.


(** The plan a worker thread was started for. *)
Definition plan_of (wk : Worker) : string * Z := (w_name wk, w_port wk).

(** How many steps a worker can still take, at most. *)
Definition pc_left (pc : WorkerPc) : nat :=
  match pc with
  | AtAcquire => 7
  | AtLaunch => 6
  | AtDiscovery => 5
  | AtBoot => 4
  | AtPayload => 3
  | AtExcept _ => 2
  | AtFinally => 1
  | Finished => 0
  end.

Fixpoint weigh {A} (f : A -> nat) (l : list A) : nat :=
  match l with
  | [] => 0
  | x :: rest => f x + weigh f rest
  end.

(** How many steps [main] and its workers can still take, at most. *)
Definition steps_left (s : System) : nat :=
  match main_pc s with
  | Starting pending => 9 * length pending + length (workers s) + 2
  | Joining next => length (workers s) - next + 1
  | Done => 0
  end + weigh (fun wk => pc_left (w_pc wk)) (workers s).

(** Where [main] stands with respect to the plans: the threads started
    so far are those of the first plans, in order; the threads joined so
    far have finished. *)
Definition main_inv (plans : list (string * Z)) (s : System) : Prop :=
  match main_pc s with
  | Starting pending => (plan_of <$> workers s) ++ pending = plans
  | Joining next =>
      plan_of <$> workers s = plans ∧
      ∀ (j : nat) wk, (j < next)%nat → workers s !! j = Some wk →
                      is_finished wk = true
  | Done =>
      plan_of <$> workers s = plans ∧
      ∀ (j : nat) wk, workers s !! j = Some wk → is_finished wk = true
  end.

(** ** Fields and lines of a text *)

(** No character of [s] is whitespace. *)
Fixpoint no_space (s : string) : bool :=
  match s with
  | EmptyString => true
  | String c rest => negb (Py.isspace c) && no_space rest
  end.

(** No character of [s] ends a line. *)
Fixpoint no_break (s : string) : bool :=
  match s with
  | EmptyString => true
  | String c rest => negb (Py.islinebreak c) && no_break rest
  end.

(** A field as [str.split] cuts it: not empty, free of whitespace. *)
Definition word (s : string) : Prop := s ≠ "" ∧ no_space s = true.

(** The line [adb devices] prints for one device. *)
Definition device_line (d : string * string) : string :=
  d.1 +:+ String "009" "" +:+ d.2.

(** [s] begins, or ends, with a character that is not whitespace. *)
Definition begins (s : string) : Prop :=
  ∃ c r, s = String c r ∧ Py.isspace c = false.

Definition ends (s : string) : Prop := begins (String.rev s).

(** ** The text rewriting of [fresh_clone_avd]

    The two loops that rewrite the copied [.ini] file and the
    [config.ini] of the clone, as functions from the lines read by
    [readlines] to the strings handed to [f.write], in order.  The
    file system around them stays behind the [EvClone] call of
    [fresh_clone_avd]. *)

Definition newline : string := String "010" "".

(** [s.startswith(pre)]. *)
Definition startswith (s pre : string) : bool :=
  match Py.strip_prefix pre s with
  | Some _ => true
  | None => false
  end.

(** The body of the loop over [ini_lines]; [new_avd_dir] stands for
    [str(new_avd_dir)]. *)
Definition ini_write (new_avd_dir new_name line : string) : string :=
  if startswith line "path=" then "path=" +:+ new_avd_dir +:+ newline
  else Py.replace line BASE_AVD new_name.

Definition ini_writes (new_avd_dir new_name : string)
    (ini_lines : list string) : list string :=
  ini_write new_avd_dir new_name <$> ini_lines.

(** The state of the loop over [cfg_lines]: what has been written,
    and the two flags. *)
Record CfgLoop : Type := {
  written : list string;
  found_id : bool;
  found_name : bool
}.

Definition config_step (new_name : string) (st : CfgLoop) (line : string)
  : CfgLoop :=
  if startswith line "avd.id=" then
    {| written := written st ++ ["avd.id=" +:+ new_name +:+ newline];
       found_id := true;
       found_name := found_name st |}
  else if startswith line "avd.name=" then
    {| written := written st ++ ["avd.name=" +:+ new_name +:+ newline];
       found_id := found_id st;
       found_name := true |}
  else
    {| written := written st ++ [Py.replace line BASE_AVD new_name];
       found_id := found_id st;
       found_name := found_name st |}.

Definition config_writes (new_name : string) (cfg_lines : list string)
  : list string :=
  let st :=
    foldl (config_step new_name)
      {| written := []; found_id := false; found_name := false |}
      cfg_lines in
  written st
  ++ (if found_id st then []
      else [newline +:+ "avd.id=" +:+ new_name +:+ newline])
  ++ (if found_name st then []
      else ["avd.name=" +:+ new_name +:+ newline]).

(** What the loop writes for one line of the configuration. *)
Definition config_write (new_name line : string) : string :=
  if startswith line "avd.id=" then "avd.id=" +:+ new_name +:+ newline
  else if startswith line "avd.name=" then
    "avd.name=" +:+ new_name +:+ newline
  else Py.replace line BASE_AVD new_name.

(** [c] occurs in [s]. *)
Fixpoint has_char (c : ascii) (s : string) : bool :=
  match s with
  | EmptyString => false
  | String x rest => bool_decide (x = c) || has_char c rest
  end.

(** * Properties *)

(** ** Facts about the built-ins *)

Section BuiltinFacts.

Lemma range0_seq (n : Z) :
  Py.range0 n = Z.of_nat <$> seq 0 (Z.to_nat n).
Proof.
  unfold Py.range0, Py.range.
  replace ((n - 0 + 1 - 1) / 1) with n by (rewrite Z.div_1_r; lia).
  apply list_fmap_ext. intros _ i _. lia.
Qed.

Lemma range0_length (n : Z) : length (Py.range0 n) = Z.to_nat n.
Proof. by rewrite range0_seq, length_fmap, length_seq. Qed.

Lemma range0_NoDup (n : Z) : NoDup (Py.range0 n).
Proof.
  rewrite range0_seq. apply NoDup_fmap_2; [|apply NoDup_seq].
  intros x y. lia.
Qed.

Global Instance serial_of_inj : Inj (=) (=) serial_of.
Proof.
  intros p q H. unfold serial_of, Py.str_int in H.
  apply (inj (String.app "emulator-")) in H. by apply (inj pretty) in H.
Qed.

Lemma avd_names_length (total : Z) :
  length (avd_names_of total) = Z.to_nat total.
Proof. unfold avd_names_of. by rewrite length_fmap, range0_length. Qed.

Lemma avd_names_NoDup (total : Z) : NoDup (avd_names_of total).
Proof.
  unfold avd_names_of. apply NoDup_fmap_2; [|apply range0_NoDup].
  intros i j H. apply (inj (String.app BASE_AVD)) in H.
  apply (inj (String.app "_copy")) in H.
  apply (inj pretty) in H. lia.
Qed.

Lemma port_range_NoDup : NoDup port_range.
Proof.
  unfold port_range, Py.range. apply NoDup_fmap_2; [|apply NoDup_seq].
  intros x y. lia.
Qed.

Lemma port_range_length : length port_range = 65%nat.
Proof. reflexivity. Qed.

Lemma port_range_spec (p : Z) :
  p ∈ port_range ↔ 5554 ≤ p ≤ 5682 ∧ ∃ k, p = 2 * k.
Proof.
  unfold port_range, Py.range.
  change (Z.to_nat ((5684 - 5554 + 2 - 1) / 2)) with 65%nat.
  rewrite list_elem_of_fmap. split.
  - intros (i & -> & Hi). apply elem_of_seq in Hi.
    split; [lia|]. exists (2777 + Z.of_nat i). lia.
  - intros [Hp [k ->]]. exists (Z.to_nat (k - 2777)). split; [lia|].
    apply elem_of_seq. lia.
Qed.

Lemma port_range_lookup_lt (i j : nat) (p q : Z) :
  port_range !! i = Some p → port_range !! j = Some q →
  (i < j)%nat ↔ p < q.
Proof.
  unfold port_range, Py.range. rewrite !list_lookup_fmap.
  intros Hi Hj.
  destruct (seq _ _ !! i) as [a|] eqn:Ha; [|done].
  destruct (seq _ _ !! j) as [b|] eqn:Hb; [|done].
  apply lookup_seq in Ha as [-> _]. apply lookup_seq in Hb as [-> _].
  simpl in *. simplify_eq. lia.
Qed.

End BuiltinFacts.

Example serial_of_5554 : serial_of 5554 = "emulator-5554".
Proof. reflexivity. Qed.

Example avd_names_of_3 :
  avd_names_of 3 = ["MyAVD3_copy1"; "MyAVD3_copy2"; "MyAVD3_copy3"].
Proof. reflexivity. Qed.

(** ** Facts about the allocator *)

Section AllocatorFacts.

Implicit Types (existing occupied : gset string) (ports : list Z).

Lemma first_free_Some ports occupied port :
  first_free ports occupied = Some port →
  ∃ before after,
    ports = before ++ port :: after ∧
    (serial_of port ∉ occupied) ∧
    Forall (fun q => serial_of q ∈ occupied) before.
Proof.
  induction ports as [|a rest IH]; simpl; [done|].
  case_bool_decide as Ha.
  - intros [= ->]. exists [], rest. by repeat split.
  - intros (before & after & -> & Hp & Hall)%IH.
    exists (a :: before), after. split; [done|]. split; [done|].
    by constructor.
Qed.

Lemma first_free_None ports occupied :
  first_free ports occupied = None ↔
  Forall (fun q => serial_of q ∈ occupied) ports.
Proof.
  induction ports as [|a rest IH]; simpl; [by split|].
  case_bool_decide as Ha.
  - split; [done|]. by intros [? _]%Forall_cons.
  - rewrite IH, Forall_cons. split; [|tauto].
    by intros ?; split.
Qed.

(** Scanning a duplicate-free list against the snapshot plus the first
    [k] of its free entries finds the next free entry. *)
Lemma first_free_next ports existing occupied (k : nat) :
  NoDup ports →
  (∀ p, p ∈ ports →
     serial_of p ∈ occupied ↔
     serial_of p ∈ existing ∨
     p ∈ take k (filter (fun q => serial_of q ∉ existing) ports)) →
  first_free ports occupied
  = filter (fun q => serial_of q ∉ existing) ports !! k.
Proof.
  intros Hnd. revert k.
  induction Hnd as [|a rest Ha Hnd IH]; intros k Hocc; [done|].
  simpl. destruct (decide (serial_of a ∉ existing)) as [Hfree|Hbusy].
  - rewrite filter_cons_True in * by done.
    destruct k as [|k]; simpl in *.
    + rewrite bool_decide_true; [done|].
      rewrite Hocc by left. intros [?|?%elem_of_nil]; done.
    + rewrite bool_decide_false.
      2:{ intros Hn. apply Hn, Hocc; [left|]. right. left. }
      apply IH. intros p Hp. rewrite Hocc by (by right).
      rewrite elem_of_cons. split; [|tauto].
      intros [?|[->|?]]; [tauto|done|tauto].
  - rewrite filter_cons_False in * by done.
    rewrite bool_decide_false.
    2:{ intros Hn. apply Hn, Hocc; [left|]. left. by apply dec_stable. }
    apply IH. intros p Hp. apply Hocc. by right.
Qed.

Lemma find_free_after_reserved existing (k : nat) :
  find_free_emulator_port
    (existing ∪ list_to_set (serial_of <$> take k (free_ports existing)))
  = match free_ports existing !! k with
    | Some port => Ok port
    | None => Raise (Exn RuntimeError "No free emulator ports available")
    end.
Proof.
  unfold find_free_emulator_port, free_ports.
  rewrite (first_free_next _ existing _ k); [done|apply port_range_NoDup|].
  intros p _. rewrite elem_of_union, elem_of_list_to_set, list_elem_of_fmap.
  split; [|intros [?|?]; [by left|right; by exists p]].
  intros [?|(q & Hq & ?)]; [by left|].
  apply (inj serial_of) in Hq. subst. by right.
Qed.

(** The reservation loop hands out the free ports of the snapshot in
    scan order, and fails exactly when they run out. *)
Lemma reserve_ports_take existing (avd_names : list string) (k : nat) :
  (k ≤ length (free_ports existing))%nat →
  reserve_ports existing avd_names (take k (free_ports existing))
  = if decide (k + length avd_names ≤ length (free_ports existing))%nat
    then Ok (take (k + length avd_names) (free_ports existing))
    else Raise (Exn RuntimeError "No free emulator ports available").
Proof.
  revert k. induction avd_names as [|name rest IH]; intros k Hk; simpl.
  - rewrite Nat.add_0_r. by rewrite decide_True.
  - rewrite find_free_after_reserved.
    destruct (free_ports existing !! k) as [port|] eqn:Hport; simpl.
    + apply lookup_lt_Some in Hport as Hlt.
      rewrite <- (take_S_r _ _ _ Hport), IH by lia.
      replace (S k + length rest)%nat with (k + S (length rest))%nat by lia.
      done.
    + apply lookup_ge_None in Hport. rewrite decide_False by lia. done.
Qed.

Lemma reserve_ports_spec existing (avd_names : list string) :
  reserve_ports existing avd_names []
  = if decide (length avd_names ≤ length (free_ports existing))%nat
    then Ok (take (length avd_names) (free_ports existing))
    else Raise (Exn RuntimeError "No free emulator ports available").
Proof. apply (reserve_ports_take existing avd_names 0). lia. Qed.

Lemma free_ports_NoDup existing : NoDup (free_ports existing).
Proof. apply NoDup_filter, port_range_NoDup. Qed.

Lemma free_ports_elem existing p :
  p ∈ free_ports existing ↔ (serial_of p ∉ existing) ∧ p ∈ port_range.
Proof. unfold free_ports. by rewrite list_elem_of_filter. Qed.

(** [find_free_emulator_port] returns the smallest port of the range
    whose serial is not occupied. *)
Lemma find_free_smallest occupied port :
  find_free_emulator_port occupied = Ok port →
  port ∈ port_range ∧ (serial_of port ∉ occupied) ∧
  ∀ q, q ∈ port_range → q < port → serial_of q ∈ occupied.
Proof.
  unfold find_free_emulator_port.
  destruct (first_free _ _) as [p|] eqn:Hff; [|done]. intros [= ->].
  apply first_free_Some in Hff as (before & after & Hsplit & Hfree & Hocc).
  split; [rewrite Hsplit; set_solver|]. split; [done|].
  intros q Hq Hlt. rewrite Forall_forall in Hocc. apply Hocc.
  apply list_elem_of_lookup in Hq as [j Hj].
  assert (port_range !! length before = Some port) as Hi.
  { rewrite Hsplit. by rewrite list_lookup_middle. }
  apply (port_range_lookup_lt _ _ _ _ Hj Hi) in Hlt.
  rewrite Hsplit, lookup_app_l in Hj by done.
  by eapply list_elem_of_lookup_2.
Qed.

Lemma find_free_exhausted occupied :
  (∀ p, p ∈ port_range → serial_of p ∈ occupied) →
  find_free_emulator_port occupied
  = Raise (Exn RuntimeError "No free emulator ports available").
Proof.
  intros Hall. unfold find_free_emulator_port.
  assert (first_free port_range occupied = None) as ->; [|done].
  apply first_free_None, Forall_forall, Hall.
Qed.

Lemma plan_instances_spec (total : Z) existing :
  plan_instances (avd_names_of total) existing
  = if decide (Z.to_nat total ≤ length (free_ports existing))%nat
    then Ok (zip (avd_names_of total)
               (take (Z.to_nat total) (free_ports existing)))
    else Raise (Exn RuntimeError "No free emulator ports available").
Proof.
  unfold plan_instances. rewrite reserve_ports_spec, avd_names_length.
  by case_decide.
Qed.

End AllocatorFacts.

(** ** Reasoning about runs *)

Section Runs.

Context {A B : Type}.

Lemma bind_Ok (m : M A) (k : A -> M B) w a w1 :
  m w = (Ok a, w1) → bind m k w = k a w1.
Proof. unfold bind. by intros ->. Qed.

Lemma bind_abort (m : M A) (k : A -> M B) w r w1 :
  m w = (r, w1) → (∀ a, r ≠ Ok a) → bind m k w = (abort r, w1).
Proof. unfold bind. intros -> Hr. destruct r; naive_solver. Qed.

Lemma bind_inv (m : M A) (k : A -> M B) w r w' :
  bind m k w = (r, w') →
  (∃ a w1, m w = (Ok a, w1) ∧ k a w1 = (r, w')) ∨
  (∃ r0, m w = (r0, w') ∧ (∀ a, r0 ≠ Ok a) ∧ r = abort r0).
Proof.
  unfold bind. destruct (m w) as [[a|e|c|] w1] eqn:Hm; intros Hk.
  - left. eauto.
  - right. exists (Raise e). by simplify_eq.
  - right. exists (Exit c). by simplify_eq.
  - right. exists OutOfFuel. by simplify_eq.
Qed.

End Runs.

Create HintDb runs.

Section Grows.

Context (P : Event -> bool).

Lemma grows_refl w : grows P w w.
Proof.
  repeat split; try lia. exists []. by rewrite app_nil_r.
Qed.

Lemma grows_trans w1 w2 w3 :
  grows P w1 w2 → grows P w2 w3 → grows P w1 w3.
Proof.
  intros (Hs1 & Hc1 & Hn1 & new1 & Hl1 & Hp1)
         (Hs2 & Hc2 & Hn2 & new2 & Hl2 & Hp2).
  repeat split; [congruence|lia|lia|].
  exists (new1 ++ new2). rewrite Hl2, Hl1, app_assoc. split; [done|].
  by apply Forall_app.
Qed.

Lemma grows_emit e w : P e = true → grows P w (emit e w).
Proof.
  intros He. repeat split; simpl; try lia.
  exists [(clock w, e)]. split; [done|]. by repeat constructor.
Qed.

Lemma grows_advance ms w : 0 ≤ ms → grows P w (advance ms w).
Proof.
  intros Hms. repeat split; simpl; try lia.
  exists []. by rewrite app_nil_r.
Qed.

Lemma logs_ret {A} (a : A) : logs P (ret a).
Proof. intros w r w' [= <- <-]. apply grows_refl. Qed.

Lemma logs_raise {A} e : logs P (@raise A e).
Proof. intros w r w' [= <- <-]. apply grows_refl. Qed.

Lemma logs_sys_exit {A} c : logs P (@sys_exit A c).
Proof. intros w r w' [= <- <-]. apply grows_refl. Qed.

Lemma logs_out_of_fuel {A} : logs P (@out_of_fuel A).
Proof. intros w r w' [= <- <-]. apply grows_refl. Qed.

Lemma logs_lift {A} (r : Result A) : logs P (lift r).
Proof. intros w r' w' [= <- <-]. apply grows_refl. Qed.

Lemma logs_time_time : logs P time_time.
Proof. intros w r w' [= <- <-]. apply grows_refl. Qed.

Lemma logs_bind {A B} (m : M A) (k : A -> M B) :
  logs P m → (∀ a, logs P (k a)) → logs P (bind m k).
Proof.
  intros Hm Hk w r w' Hrun.
  apply bind_inv in Hrun as [(a & w1 & Hm1 & Hk1)|(r0 & Hm1 & _)].
  - eapply grows_trans; [by eapply Hm|by eapply Hk].
  - by eapply Hm.
Qed.

Lemma logs_try_except {A} (body : M A) handler :
  logs P body → (∀ e, logs P (handler e)) → logs P (try_except body handler).
Proof.
  intros Hb Hh w r w'. unfold try_except.
  destruct (body w) as [[a|e|c|] w1] eqn:Hbody; intros Hrun;
    try (simplify_eq; by eapply Hb).
  eapply grows_trans; [by eapply Hb|by eapply Hh].
Qed.

Lemma logs_external e : P e = true → logs P (external e).
Proof.
  intros He w r w'. unfold external. intros Hrun.
  assert (w' = advance (Z.of_N (latency (script w (calls w)))) (emit e w))
    as -> by (destruct (fault _); by simplify_eq).
  eapply grows_trans; [by apply grows_emit|apply grows_advance; lia].
Qed.

Lemma logs_external_total e : P e = true → logs P (external_total e).
Proof.
  intros He w r w' [= <- <-].
  eapply grows_trans; [by apply grows_emit|apply grows_advance; lia].
Qed.

Lemma logs_print line : P (EvPrint line) = true → logs P (print line).
Proof. intros He w r w' [= <- <-]. by apply grows_emit. Qed.

Lemma logs_time_sleep seconds :
  P (EvSleep seconds) = true → logs P (time_sleep seconds).
Proof.
  intros He w r w'. unfold time_sleep. case_bool_decide.
  - intros [= <- <-]. by apply grows_emit.
  - intros [= <- <-]. repeat split; simpl; try lia.
    exists [(clock w, EvSleep seconds)]. split; [done|].
    by repeat constructor.
Qed.

Lemma logs_for_each {A} (l : list A) body :
  (∀ x, logs P (body x)) → logs P (for_each l body).
Proof.
  intros Hb. induction l as [|x l IH]; simpl.
  - apply logs_ret.
  - apply logs_bind; [apply Hb|done].
Qed.

End Grows.

Global Hint Resolve logs_ret logs_raise logs_sys_exit logs_out_of_fuel
  logs_lift logs_time_time logs_bind logs_try_except logs_external
  logs_external_total logs_print logs_time_sleep logs_for_each : runs.

Section Succeeds.

Lemma succeeds_ret {A} (a : A) : succeeds (ret a).
Proof. intros w. by exists a, w. Qed.

Lemma succeeds_bind {A B} (m : M A) (k : A -> M B) :
  succeeds m → (∀ a, succeeds (k a)) → succeeds (bind m k).
Proof.
  intros Hm Hk w. destruct (Hm w) as (a & w1 & Hrun).
  destruct (Hk a w1) as (b & w2 & Hrun2).
  exists b, w2. by rewrite (bind_Ok _ _ _ _ _ Hrun).
Qed.

Lemma succeeds_print line : succeeds (print line).
Proof. intros w. by eexists _, _. Qed.

Lemma succeeds_external_total e : succeeds (external_total e).
Proof. intros w. by eexists _, _. Qed.

Lemma succeeds_time_sleep seconds : 0 ≤ seconds → succeeds (time_sleep seconds).
Proof.
  intros Hs w. unfold time_sleep. rewrite bool_decide_false by lia.
  by eexists _, _.
Qed.

Lemma succeeds_new_proc_holder : succeeds new_proc_holder.
Proof. intros w. by eexists _, _. Qed.

Lemma succeeds_update_holder ref f : succeeds (update_holder ref f).
Proof. intros w. by eexists _, _. Qed.

Lemma succeeds_read_holder ref : succeeds (read_holder ref).
Proof. intros w. by eexists _, _. Qed.

Lemma succeeds_for_each {A} (l : list A) body :
  (∀ x, succeeds (body x)) → succeeds (for_each l body).
Proof.
  intros Hb. induction l as [|x l IH]; simpl.
  - apply succeeds_ret.
  - by apply succeeds_bind.
Qed.

(** A handler that always returns makes the whole [try] statement
    return, provided the body can only return or raise. *)
Lemma succeeds_try_except {A} (body : M A) handler :
  settles body → (∀ e, succeeds (handler e)) →
  succeeds (try_except body handler).
Proof.
  intros Hb Hh w. unfold try_except.
  destruct (body w) as [r w1] eqn:Hbody.
  destruct (Hb _ _ _ Hbody) as [[a ->]|[e ->]]; [by eexists _, _|].
  apply Hh.
Qed.

Lemma settles_succeeds {A} (m : M A) : succeeds m → settles m.
Proof.
  intros Hm w r w' Hrun. destruct (Hm w) as (a & w1 & Hok).
  left. exists a. congruence.
Qed.

Lemma settles_bind {A B} (m : M A) (k : A -> M B) :
  settles m → (∀ a, settles (k a)) → settles (bind m k).
Proof.
  intros Hm Hk w r w' Hrun.
  apply bind_inv in Hrun as [(a & w1 & Hm1 & Hk1)|(r0 & Hm1 & Hne & ->)].
  - by eapply Hk.
  - destruct (Hm _ _ _ Hm1) as [[a ->]|[e ->]]; [by destruct (Hne a)|].
    right. by exists e.
Qed.

Lemma settles_external e : settles (external e).
Proof.
  intros w r w'. unfold external. destruct (fault _); intros [= <- <-]; eauto.
Qed.

Lemma settles_run_cmd cmd capture_output : settles (run_cmd cmd capture_output).
Proof.
  apply settles_bind; [apply settles_external|].
  intros r. apply settles_succeeds, succeeds_ret.
Qed.

End Succeeds.

Global Hint Resolve succeeds_ret succeeds_bind succeeds_print
  succeeds_external_total succeeds_time_sleep succeeds_new_proc_holder
  succeeds_update_holder succeeds_read_holder succeeds_for_each
  succeeds_try_except settles_succeeds settles_bind settles_external
  settles_run_cmd : runs.

(** ** The orchestrator's own control flow *)

Section Orchestrator.

Lemma succeeds_start_workers plans : succeeds (start_workers plans).
Proof.
  induction plans as [|[name port] rest IH]; simpl.
  - apply succeeds_ret.
  - repeat (apply succeeds_bind; [|intros ?]); eauto with runs.
    apply succeeds_time_sleep. lia.
Qed.

Lemma succeeds_thread_join info : succeeds (thread_join info).
Proof.
  destruct info as [[name port] ref]. simpl.
  apply succeeds_bind; [|intros ?]; eauto with runs.
Qed.

Lemma succeeds_terminate_one info : succeeds (terminate_one info).
Proof.
  destruct info as [[name port] ref]. simpl.
  apply succeeds_bind; [apply succeeds_read_holder|]. intros h.
  destruct (ph_proc h) as [proc|]; [|apply succeeds_ret].
  apply succeeds_bind; [apply succeeds_external_total|]. intros r.
  destruct (running r); [|apply succeeds_ret].
  apply succeeds_try_except.
  - apply settles_bind; [apply settles_run_cmd|].
    intros _. apply settles_succeeds, succeeds_ret.
  - intros _. apply succeeds_try_except.
    + apply settles_bind; [apply settles_external|].
      intros _. apply settles_succeeds, succeeds_ret.
    + intros _. apply succeeds_ret.
Qed.

(** Once the plans exist, nothing in [main] raises or exits: neither
    branch of the retention policy does. *)
Lemma succeeds_launch_and_wait plans : succeeds (launch_and_wait plans).
Proof.
  unfold launch_and_wait.
  apply succeeds_bind; [apply succeeds_external_total|]. intros _.
  apply succeeds_bind; [apply succeeds_start_workers|]. intros procs_info.
  apply succeeds_bind;
    [apply succeeds_for_each, succeeds_thread_join|]. intros _.
  apply succeeds_bind; [apply succeeds_print|]. intros _.
  apply succeeds_bind; [|intros _; apply succeeds_print].
  destruct KEEP_EMULATORS; [apply succeeds_print|].
  apply succeeds_bind; [apply succeeds_print|]. intros _.
  apply succeeds_for_each, succeeds_terminate_one.
Qed.

Lemma logs_run_cmd P cmd capture_output :
  P (EvRun cmd capture_output) = true → logs P (run_cmd cmd capture_output).
Proof. intros HP. unfold run_cmd. eauto with runs. Qed.

Lemma logs_list_adb_devices P :
  P (EvRun ["adb"; "devices"] true) = true → logs P list_adb_devices.
Proof.
  intros HP. unfold list_adb_devices.
  apply logs_bind.
  - apply logs_try_except; [|intros; apply logs_ret].
    apply logs_bind; [by apply logs_run_cmd|intros; apply logs_ret].
  - intros [r|]; apply logs_ret.
Qed.

Lemma logs_read_total : logs no_launch read_total.
Proof.
  unfold read_total. apply logs_bind; [by apply logs_external|].
  intros r. destruct (Py.int_of_str _); eauto with runs.
Qed.

Lemma logs_fresh_clone_avd new_name : logs no_launch (fresh_clone_avd new_name).
Proof. unfold fresh_clone_avd. eauto with runs. Qed.

(** The preparation phase starts no thread, takes no permit and spawns
    no process. *)
Lemma logs_prepare_run : logs no_launch prepare_run.
Proof.
  unfold prepare_run. apply logs_bind.
  - apply logs_try_except; [apply logs_read_total|]. eauto with runs.
  - intros total. case_bool_decide; [eauto with runs|].
    apply logs_bind; [by apply logs_print|]. intros _.
    apply logs_bind; [apply logs_for_each, logs_fresh_clone_avd|]. intros _.
    apply logs_bind; [by apply logs_list_adb_devices|]. intros existing.
    apply logs_ret.
Qed.

Lemma prepare_run_no_launch w r w1 :
  prepare_run w = (r, w1) →
  ∃ new, log w1 = log w ++ new ∧
         Forall (fun te => launches te.2 = false) new.
Proof.
  intros Hprep.
  destruct (logs_prepare_run _ _ _ Hprep) as (_ & _ & _ & new & Hlog & Hnew).
  exists new. split; [done|].
  eapply Forall_impl; [exact Hnew|]. intros [t e]. unfold no_launch. simpl.
  by destruct (launches e).
Qed.

Lemma reserve_ports_app existing (names1 names2 : list string) reserved_ports :
  reserve_ports existing (names1 ++ names2) reserved_ports
  = result_bind (reserve_ports existing names1 reserved_ports)
      (fun reserved => reserve_ports existing names2 reserved).
Proof.
  revert reserved_ports. induction names1 as [|name rest IH]; intros acc; simpl.
  - done.
  - destruct (find_free_emulator_port _); simpl; auto.
Qed.

End Orchestrator.

(** ** C1: the allocation step *)

(** C1, as stated, fails: 66 instances are requested while the range
    holds 65 ports, and the allocation raises instead of returning 66
    plans. *)
Lemma allocation_can_fail :
  1 ≤ 66 ∧
  plan_instances (avd_names_of 66) ∅
  = Raise (Exn RuntimeError "No free emulator ports available").
Proof. split; [lia|]. vm_compute. reflexivity. Qed.

(** C1 (amended): for every requested total >= 1 and every snapshot of
    live endpoints that leaves at least [total] ports of the range free,
    the allocation yields exactly [total] plans, with pairwise distinct
    identities and pairwise distinct ports, no derived endpoint in the
    snapshot, and each port the smallest port of the range 5554..5682
    (even ports only) whose endpoint is neither in the snapshot nor
    reserved by an earlier plan.  [main] computes these plans right
    after the snapshot, when nothing has been launched yet, and only
    then starts the workers. *)
Theorem allocation_plans (total : Z) (existing : gset string) :
  1 ≤ total →
  total ≤ Z.of_nat (length (free_ports existing)) →
  ∃ plans,
    plan_instances (avd_names_of total) existing = Ok plans ∧
    Z.of_nat (length plans) = total ∧
    NoDup plans.*1 ∧
    NoDup plans.*2 ∧
    (∀ port, port ∈ plans.*2 → serial_of port ∉ existing) ∧
    (∀ (i : nat) port, plans.*2 !! i = Some port →
       let taken :=
         existing ∪ list_to_set (serial_of <$> take i plans.*2) in
       (5554 ≤ port ≤ 5682 ∧ ∃ k, port = 2 * k) ∧
       (serial_of port ∉ taken) ∧
       ∀ q, q ∈ port_range → q < port → serial_of q ∈ taken) ∧
    (∀ w w1,
       prepare_run w = (Ok (avd_names_of total, existing), w1) →
       main w = launch_and_wait plans w1 ∧
       ∃ new, log w1 = log w ++ new ∧
              Forall (fun te => launches te.2 = false) new).
Proof.
  intros Hpos Hfree. set (n := Z.to_nat total).
  set (F := free_ports existing) in *.
  assert (n ≤ length F)%nat as Hn by lia.
  exists (zip (avd_names_of total) (take n F)).
  assert (length (take n F) = n) as Hlen by (rewrite length_take; lia).
  assert (length (avd_names_of total) = n) as Hnames
    by apply avd_names_length.
  assert (plan_instances (avd_names_of total) existing
          = Ok (zip (avd_names_of total) (take n F))) as Hplans
    by (by rewrite plan_instances_spec, decide_True).
  rewrite fst_zip, snd_zip by lia.
  split; [done|]. split; [rewrite length_zip_with; lia|].
  split; [apply avd_names_NoDup|].
  split; [eapply sublist_NoDup;
          [apply (free_ports_NoDup existing)|apply sublist_take]|].
  split; [|split].
  - intros port (j & Hj%list_elem_of_lookup_2 & _)%elem_of_take.
    by apply free_ports_elem in Hj as [? _].
  - intros i port Hi. apply lookup_take_Some in Hi as [Hi Hlt].
    rewrite take_take, Nat.min_l by lia.
    pose proof (find_free_after_reserved existing i) as Hfind.
    fold F in Hfind. rewrite Hi in Hfind.
    apply find_free_smallest in Hfind as (Hrange & Hnot & Hmin).
    split; [by apply port_range_spec|]. by split.
  - intros w w1 Hprep. split.
    + unfold main. rewrite (bind_Ok _ _ _ _ _ Hprep). simpl.
      unfold lift, bind. by rewrite Hplans.
    + by eapply prepare_run_no_launch.
Qed.

(** A run of three instances beside two live emulators. *)
Lemma allocation_plans_witness :
  ∃ plans,
    plan_instances (avd_names_of 3) {[ "emulator-5554"; "emulator-5558" ]}
    = Ok plans ∧
    plans = [("MyAVD3_copy1", 5556); ("MyAVD3_copy2", 5560);
             ("MyAVD3_copy3", 5562)].
Proof.
  destruct (allocation_plans 3 {[ "emulator-5554"; "emulator-5558" ]})
    as (plans & Hplans & _).
  - lia.
  - vm_compute. discriminate.
  - exists plans. split; [exact Hplans|].
    vm_compute in Hplans. by injection Hplans.
Defined.

(** ** C2: exhaustion of the port range *)

(** C2: when, after [k] of the requested plans have been reserved, the
    snapshot together with the reserved ports occupies every port of
    the range, finding a port for the next plan raises the
    "no free port" error, [main] ends with that error, and up to that
    point the run has started no worker thread, taken no permit and
    spawned no emulator process. *)
Theorem exhaustion_precedes_launch (w w1 : World) (avd_names : list string)
    (existing : gset string) (k : nat) (reserved_ports : list Z) :
  prepare_run w = (Ok (avd_names, existing), w1) →
  (k < length avd_names)%nat →
  reserve_ports existing (take k avd_names) [] = Ok reserved_ports →
  (∀ p, p ∈ port_range →
     serial_of p ∈ existing ∪ list_to_set (serial_of <$> reserved_ports)) →
  find_free_emulator_port
    (existing ∪ list_to_set (serial_of <$> reserved_ports))
  = Raise (Exn RuntimeError "No free emulator ports available") ∧
  main w = (Raise (Exn RuntimeError "No free emulator ports available"), w1) ∧
  ∃ new, log w1 = log w ++ new ∧
         Forall (fun te => launches te.2 = false) new.
Proof.
  intros Hprep Hk Hres Hfull.
  pose proof (find_free_exhausted _ Hfull) as Hfind.
  split; [done|]. split.
  - unfold main. rewrite (bind_Ok _ _ _ _ _ Hprep). simpl.
    unfold plan_instances.
    rewrite <- (take_drop k avd_names) at 1.
    rewrite reserve_ports_app, Hres. simpl.
    destruct (drop k avd_names) as [|name rest] eqn:Hdrop.
    { apply (f_equal length) in Hdrop. rewrite length_drop in Hdrop.
      simpl in Hdrop. lia. }
    simpl. by rewrite Hfind.
  - by eapply prepare_run_no_launch.
Qed.

(** One instance requested while all 65 ports are live. *)
Lemma exhaustion_precedes_launch_witness :
  main crowded_world
  = (Raise (Exn RuntimeError "No free emulator ports available"),
     (prepare_run crowded_world).2) ∧
  ∃ new, log (prepare_run crowded_world).2 = log crowded_world ++ new ∧
         Forall (fun te => launches te.2 = false) new.
Proof.
  refine (proj2 (exhaustion_precedes_launch crowded_world
            (prepare_run crowded_world).2
            (avd_names_of 1)
            (list_to_set (serial_of <$> port_range)) 0 [] _ _ _ _)).
  - vm_compute. reflexivity.
  - vm_compute. lia.
  - reflexivity.
  - intros p Hp. apply elem_of_union_l, elem_of_list_to_set.
    by apply list_elem_of_fmap_2.
Defined.

(** ** C10: the live-endpoint enumeration *)

Section Enumeration.

Lemma add_device_elem (devs : gset string) (line serial : string) :
  serial ∈ add_device devs line ↔
  serial ∈ devs ∨
  ∃ state rest, Py.split line = serial :: state :: rest ∧ state = "device".
Proof.
  unfold add_device.
  destruct (Py.split line) as [|first [|state rest]] eqn:Hsplit.
  - split; [by left|]. intros [?|(? & ? & ? & _)]; done.
  - split; [by left|]. intros [?|(? & ? & ? & _)]; done.
  - case_bool_decide as Hstate.
    + rewrite elem_of_union, elem_of_singleton. split.
      * intros [? | ->]; [by left|]. right. by exists state, rest.
      * intros [?|(? & ? & ? & _)]; [by left|]. right. congruence.
    + split; [by left|]. intros [?|(? & ? & ? & ?)]; [done|].
      by simplify_eq.
Qed.

Lemma foldl_add_device_elem (lines : list string) (devs : gset string)
    (serial : string) :
  serial ∈ foldl add_device devs lines ↔
  serial ∈ devs ∨
  ∃ line state rest,
    line ∈ lines ∧ Py.split line = serial :: state :: rest ∧ state = "device".
Proof.
  revert devs. induction lines as [|line lines IH]; intros devs; simpl.
  - split; [by left|]. intros [?|(? & ? & ? & ?%elem_of_nil & _)]; done.
  - rewrite IH, add_device_elem. split.
    + intros [[?|(state & rest & ? & ?)]|(l & state & rest & ? & ? & ?)].
      * by left.
      * right. exists line, state, rest. split; [left|done].
      * right. exists l, state, rest. split; [by right|done].
    + intros [?|(l & state & rest & [->|?]%elem_of_cons & ? & ?)].
      * left. by left.
      * left. right. by exists state, rest.
      * right. by exists l, state, rest.
Qed.

Lemma list_adb_devices_run w :
  list_adb_devices w
  = (Ok match fault (script w (calls w)) with
        | Some _ => ∅
        | None => devices_of_output (stdout (script w (calls w)))
        end,
     advance (Z.of_N (latency (script w (calls w))))
       (emit (EvRun ["adb"; "devices"] true) w)).
Proof.
  unfold list_adb_devices, try_except, run_cmd, bind, external, ret.
  by destruct (fault (script w (calls w))).
Qed.

End Enumeration.

(** C10: the enumeration never raises.  When the [adb devices] call
    raises, the result is the empty set; otherwise it is exactly the set
    of first fields of the lines after the first line of the stripped
    output whose second field is "device".  Either way the world moves
    on in the same manner, so the discovery probe answers a failed
    enumeration as it answers an empty one. *)
Theorem enumeration_total (w : World) :
  let reply := script w (calls w) in
  let w' := advance (Z.of_N (latency reply))
              (emit (EvRun ["adb"; "devices"] true) w) in
  list_adb_devices w
  = (Ok match fault reply with
        | Some _ => ∅
        | None => devices_of_output (stdout reply)
        end, w') ∧
  (∀ out serial,
     serial ∈ devices_of_output out ↔
     ∃ line state rest,
       line ∈ drop 1 (Py.splitlines (Py.strip out)) ∧
       Py.split line = serial :: state :: rest ∧ state = "device") ∧
  (∀ serial,
     serial_probe serial w
     = (Ok match fault reply with
           | Some _ => false
           | None => bool_decide (serial ∈ devices_of_output (stdout reply))
           end, w')).
Proof.
  intros reply w'. pose proof (list_adb_devices_run w) as Hlist.
  fold reply in Hlist. fold w' in Hlist.
  split; [done|]. split.
  - intros out serial. unfold devices_of_output.
    rewrite foldl_add_device_elem. split; [|by right].
    by intros [?%elem_of_empty|?].
  - intros serial. unfold serial_probe.
    rewrite (bind_Ok _ _ _ _ _ Hlist). unfold ret.
    destruct (fault reply); [|done].
    by rewrite bool_decide_false by apply not_elem_of_empty.
Qed.

(** A typical answer: the header is skipped, the offline emulator and
    the unauthorised phone are left out. *)
Example enumeration_sample :
  devices_of_output
    (adb_devices_output
       [("emulator-5554", "device"); ("emulator-5556", "offline");
        ("R58M123ABC", "unauthorized"); ("emulator-5560", "device")])
  = {[ "emulator-5554"; "emulator-5560" ]}.
Proof. vm_compute. reflexivity. Qed.

(** ** The polling loop *)

Section PollLoop.

Context (probe : M bool) (hit : Reply -> bool)
  (trace : Z -> Reply -> list (Z * Event)).

Hypothesis probe_run :
  ∀ w, probe w = (Ok (hit (script w (calls w))), probed trace w).

Hypothesis trace_polls :
  ∀ t r, Forall (fun te => polls te.2 = true → te.1 = t) (trace t r).

Context (start timeout : Z) (expired : exn).

Lemma after_misses_calls k w : calls (after_misses trace k w) = (calls w + k)%nat.
Proof.
  revert w. induction k as [|k IH]; intros w; simpl; [lia|].
  rewrite IH. simpl. lia.
Qed.

Lemma after_misses_script k w : script (after_misses trace k w) = script w.
Proof.
  revert w. induction k as [|k IH]; intros w; simpl; [done|].
  by rewrite IH.
Qed.

Lemma after_misses_heap k w : heap (after_misses trace k w) = heap w.
Proof.
  revert w. induction k as [|k IH]; intros w; simpl; [done|].
  by rewrite IH.
Qed.

Lemma after_misses_clock k w : clock (after_misses trace k w) = pass_time w k.
Proof.
  unfold pass_time. revert w. induction k as [|k IH]; intros w; simpl; [lia|].
  rewrite IH. simpl. lia.
Qed.

Lemma elapse_ge script from k : 2000 * Z.of_nat k ≤ elapse script from k.
Proof.
  revert from. induction k as [|k IH]; intros from; simpl; [lia|].
  specialize (IH (S from)). lia.
Qed.

Lemma elapse_mono script from j k :
  (j ≤ k)%nat → elapse script from j ≤ elapse script from k.
Proof.
  revert from k. induction j as [|j IH]; intros from k Hjk; simpl.
  - pose proof (elapse_ge script from k). lia.
  - destruct k as [|k]; [lia|]. simpl. specialize (IH (S from) k). lia.
Qed.

Lemma pass_time_mono w j k : (j ≤ k)%nat → pass_time w j ≤ pass_time w k.
Proof.
  intros Hjk. unfold pass_time.
  pose proof (elapse_mono (script w) (calls w) j k Hjk). lia.
Qed.

Lemma pass_time_next w k :
  pass_time (slept (probed trace w)) k = pass_time w (S k).
Proof. unfold pass_time. simpl. lia. Qed.

Lemma poll_loop_unfold fuel w :
  poll_loop fuel start timeout probe expired w
  = if bool_decide (clock w - start < timeout * 1000) then
      match fuel with
      | O => (OutOfFuel, w)
      | S fuel' =>
          if hit (script w (calls w)) then (Ok true, probed trace w)
          else poll_loop fuel' start timeout probe expired
                 (slept (probed trace w))
      end
    else (Raise expired, w).
Proof.
  destruct fuel as [|fuel]; simpl; unfold bind, time_time;
    case_bool_decide; try done.
  rewrite probe_run. by destruct (hit _).
Qed.

(** The first poll that hits, if it starts in time, ends the loop with
    success. *)
Lemma poll_loop_hit k : ∀ fuel w,
  (∀ j, (j < k)%nat → hit (script w (calls w + j)%nat) = false) →
  hit (script w (calls w + k)%nat) = true →
  pass_time w k - start < timeout * 1000 →
  (k < fuel)%nat →
  poll_loop fuel start timeout probe expired w
  = (Ok true, probed trace (after_misses trace k w)).
Proof.
  induction k as [|k IH]; intros fuel w Hmiss Hhit Htime Hfuel;
    (destruct fuel as [|fuel]; [lia|]); rewrite poll_loop_unfold.
  - unfold pass_time in Htime. simpl in Htime.
    rewrite bool_decide_true by lia.
    rewrite Nat.add_0_r in Hhit. by rewrite Hhit.
  - pose proof (pass_time_mono w 0 (S k) ltac:(lia)) as Hmono.
    unfold pass_time at 1 in Hmono. simpl in Hmono.
    rewrite bool_decide_true by lia.
    rewrite <- (Nat.add_0_r (calls w)), (Hmiss 0%nat) by lia.
    simpl. apply IH.
    + intros j Hj. simpl. rewrite <- Nat.add_succ_r.
      apply Hmiss. lia.
    + simpl. by rewrite <- Nat.add_succ_r.
    + by rewrite pass_time_next.
    + lia.
Qed.

(** When no poll hits before the condition of the loop fails, the loop
    ends with the timeout error, at the first test that fails. *)
Lemma poll_loop_expire k : ∀ fuel w,
  (∀ j, (j < k)%nat → hit (script w (calls w + j)%nat) = false) →
  (∀ j, (j < k)%nat → pass_time w j - start < timeout * 1000) →
  timeout * 1000 ≤ pass_time w k - start →
  (k ≤ fuel)%nat →
  poll_loop fuel start timeout probe expired w
  = (Raise expired, after_misses trace k w).
Proof.
  induction k as [|k IH]; intros fuel w Hmiss Hin Hout Hfuel;
    rewrite poll_loop_unfold.
  - unfold pass_time in Hout. simpl in Hout.
    by rewrite bool_decide_false by lia.
  - destruct fuel as [|fuel]; [lia|].
    pose proof (Hin 0%nat ltac:(lia)) as H0.
    unfold pass_time in H0. simpl in H0.
    rewrite bool_decide_true by lia.
    rewrite <- (Nat.add_0_r (calls w)), (Hmiss 0%nat) by lia.
    simpl. apply IH.
    + intros j Hj. simpl. rewrite <- Nat.add_succ_r.
      apply Hmiss. lia.
    + intros j Hj. rewrite pass_time_next. apply Hin. lia.
    + by rewrite pass_time_next.
    + lia.
Qed.

(** With fuel for the time that is left, the loop ends in one of these
    two ways. *)
Lemma poll_loop_outcome fuel : ∀ w,
  timeout * 1000 - (clock w - start) ≤ 2000 * Z.of_nat fuel →
  ∃ k,
    (∀ j, (j < k)%nat → hit (script w (calls w + j)%nat) = false) ∧
    (∀ j, (j < k)%nat → pass_time w j - start < timeout * 1000) ∧
    ((hit (script w (calls w + k)%nat) = true ∧
      pass_time w k - start < timeout * 1000 ∧
      poll_loop fuel start timeout probe expired w
      = (Ok true, probed trace (after_misses trace k w))) ∨
     (timeout * 1000 ≤ pass_time w k - start ∧
      poll_loop fuel start timeout probe expired w
      = (Raise expired, after_misses trace k w))).
Proof.
  induction fuel as [|fuel IH]; intros w Hfuel; rewrite poll_loop_unfold.
  - exists 0%nat. split; [lia|]. split; [lia|]. right.
    unfold pass_time. rewrite bool_decide_false by lia.
    split; [simpl; lia|done].
  - destruct (decide (clock w - start < timeout * 1000)) as [Hin|Hout].
    2:{ exists 0%nat. split; [lia|]. split; [lia|]. right.
        unfold pass_time. rewrite bool_decide_false by lia.
        split; [simpl; lia|done]. }
    rewrite bool_decide_true by done.
    destruct (hit (script w (calls w))) eqn:Hhit.
    { exists 0%nat. split; [lia|]. split; [lia|]. left.
      rewrite Nat.add_0_r. unfold pass_time.
      split; [done|]. split; [simpl; lia|done]. }
    destruct (IH (slept (probed trace w))) as (k & Hmiss & Htimes & Hend).
    { simpl. lia. }
    exists (S k). split; [|split].
    + intros [|j] Hj; [by rewrite Nat.add_0_r|].
      rewrite Nat.add_succ_r. apply (Hmiss j). lia.
    + intros [|j] Hj; [unfold pass_time; simpl; lia|].
      rewrite <- pass_time_next. apply Htimes. lia.
    + rewrite <- pass_time_next. simpl in Hend.
      rewrite Nat.add_succ_r. exact Hend.
Qed.

(** Every poll is logged at the time of a test that passed. *)
Lemma after_misses_log k : ∀ w,
  (∀ j, (j < k)%nat → pass_time w j - start < timeout * 1000) →
  ∃ new, log (after_misses trace k w) = log w ++ new ∧
         Forall (fun te => polls te.2 = true →
                           te.1 - start < timeout * 1000) new.
Proof.
  induction k as [|k IH]; intros w Hin; simpl.
  - exists []. by rewrite app_nil_r.
  - destruct (IH (slept (probed trace w))) as (new & Hlog & Hnew).
    { intros j Hj. rewrite pass_time_next. apply Hin. lia. }
    exists (trace (clock w) (script w (calls w))
            ++ [(clock w + Z.of_N (latency (script w (calls w))), EvSleep 2)]
            ++ new).
    split; [rewrite Hlog; simpl; by rewrite <- !app_assoc|].
    pose proof (Hin 0%nat ltac:(lia)) as H0.
    unfold pass_time in H0. simpl in H0.
    apply Forall_app. split; [|apply Forall_cons; split; [done|done]].
    eapply Forall_impl; [apply trace_polls|].
    intros [t e]. simpl. intros Ht Hp. rewrite (Ht Hp). lia.
Qed.

End PollLoop.

(** ** The two readiness phases *)

Section Phases.

Lemma serial_probe_run serial w :
  serial_probe serial w
  = (Ok (sees serial (script w (calls w))), probed serial_trace w).
Proof.
  unfold serial_probe. rewrite (bind_Ok _ _ _ _ _ (list_adb_devices_run w)).
  unfold ret, sees, probed, advance, emit, serial_trace. simpl.
  destruct (fault (script w (calls w))); [|done].
  by rewrite bool_decide_false by apply not_elem_of_empty.
Qed.

Lemma boot_probe_run serial w :
  boot_probe serial w
  = (Ok (booted (script w (calls w))), probed (boot_trace serial) w).
Proof.
  unfold boot_probe, try_except, run_cmd, bind, external, booted, probed,
    boot_trace, booted, ret.
  destruct (fault (script w (calls w))) as [e|]; simpl; [done|].
  destruct (Py.truthy _ && _); simpl; unfold advance, emit; simpl;
    by rewrite <- ?app_assoc.
Qed.

Lemma phase_probe_run ph serial w :
  phase_probe ph serial w
  = (Ok (phase_hit ph serial (script w (calls w))),
     probed (phase_trace ph serial) w).
Proof. destruct ph; [apply serial_probe_run|apply boot_probe_run]. Qed.

Lemma phase_trace_polls ph serial t r :
  Forall (fun te => polls te.2 = true → te.1 = t) (phase_trace ph serial t r).
Proof.
  destruct ph; simpl; unfold serial_trace, boot_trace.
  - by repeat constructor.
  - destruct (booted r); repeat constructor; simpl; done.
Qed.

Lemma run_phase_unfold ph serial timeout w :
  run_phase ph serial timeout w
  = poll_loop (Z.to_nat timeout) (clock w) timeout (phase_probe ph serial)
      (phase_error ph serial timeout) w.
Proof. by destruct ph. Qed.

(** The fuel of the two loops is enough for their timeout. *)
Lemma phase_fuel timeout w :
  timeout * 1000 - (clock w - clock w)
  ≤ 2000 * Z.of_nat (Z.to_nat timeout).
Proof. lia. Qed.

(** How either phase ends. *)
Lemma run_phase_outcome ph serial timeout w :
  ∃ k,
    (∀ j, (j < k)%nat →
       phase_hit ph serial (script w (calls w + j)%nat) = false) ∧
    (∀ j, (j < k)%nat → pass_time w j - clock w < timeout * 1000) ∧
    ((phase_hit ph serial (script w (calls w + k)%nat) = true ∧
      pass_time w k - clock w < timeout * 1000 ∧
      run_phase ph serial timeout w
      = (Ok true,
         probed (phase_trace ph serial)
           (after_misses (phase_trace ph serial) k w))) ∨
     (timeout * 1000 ≤ pass_time w k - clock w ∧
      run_phase ph serial timeout w
      = (Raise (phase_error ph serial timeout),
         after_misses (phase_trace ph serial) k w))).
Proof.
  rewrite run_phase_unfold.
  apply poll_loop_outcome; [apply phase_probe_run|apply phase_fuel].
Qed.

Lemma run_phase_hit ph serial timeout w k :
  (∀ j, (j < k)%nat →
     phase_hit ph serial (script w (calls w + j)%nat) = false) →
  phase_hit ph serial (script w (calls w + k)%nat) = true →
  pass_time w k - clock w < timeout * 1000 →
  run_phase ph serial timeout w
  = (Ok true,
     probed (phase_trace ph serial)
       (after_misses (phase_trace ph serial) k w)).
Proof.
  intros Hmiss Hhit Htime. rewrite run_phase_unfold.
  apply (poll_loop_hit _ _ _ (phase_probe_run ph serial));
    [done|done|done|].
  unfold pass_time in Htime.
  pose proof (elapse_ge (script w) (calls w) k). lia.
Qed.

End Phases.

(** ** C3: discovery succeeds at the first sighting *)

(** C3: when the [k+1]-th poll is the first whose enumeration contains
    the target serial, and that poll starts before the timeout, the
    discovery phase returns success with exactly [k+1] polls made; and
    whenever the phase returns success, the poll it returned on saw the
    serial and no earlier poll did. *)
Theorem discovery_first_sighting (w : World) (serial : string)
    (timeout : Z) (k : nat) :
  (∀ j, (j < k)%nat → sees serial (script w (calls w + j)%nat) = false) →
  sees serial (script w (calls w + k)%nat) = true →
  pass_time w k - clock w < timeout * 1000 →
  (∃ w', wait_for_serial serial timeout w = (Ok true, w') ∧
         calls w' = (calls w + S k)%nat) ∧
  (∀ u u', wait_for_serial serial timeout u = (Ok true, u') →
     ∃ n, calls u' = (calls u + S n)%nat ∧
          sees serial (script u (calls u + n)%nat) = true ∧
          ∀ j, (j < n)%nat →
               sees serial (script u (calls u + j)%nat) = false).
Proof.
  intros Hmiss Hhit Htime. split.
  - eexists. split; [exact (run_phase_hit Discovery _ _ _ _ Hmiss Hhit Htime)|].
    simpl. rewrite after_misses_calls. lia.
  - intros u u' Hrun.
    destruct (run_phase_outcome Discovery serial timeout u)
      as (n & Hm & _ & [(Hh & _ & Hok)|(_ & Hraise)]).
    + exists n. simpl in Hok. rewrite Hok in Hrun. simplify_eq.
      simpl. rewrite after_misses_calls. split; [lia|]. by split.
    + simpl in Hraise. congruence.
Qed.

(** The emulator shows up in the third enumeration; before that the
    first enumeration fails and the second lists another device. *)
Lemma discovery_first_sighting_witness :
  let w := scripted 0
             [fails 30 (Exn OSError "adb not ready");
              says 20 (adb_devices_output [("emulator-5556", "device")]);
              says 25 (adb_devices_output
                         [("emulator-5556", "device");
                          ("emulator-5554", "device")])]
             quiet in
  ∃ w', wait_for_serial "emulator-5554" BOOT_TIMEOUT w = (Ok true, w') ∧
        calls w' = 3%nat.
Proof.
  intros w.
  refine (proj1 (discovery_first_sighting w "emulator-5554" BOOT_TIMEOUT 2
                   _ _ _)).
  - intros [|[|j]] Hj; [by vm_compute|by vm_compute|lia].
  - by vm_compute.
  - by vm_compute.
Defined.

(** ** C4: a failing boot query is not final *)

(** C4: against the answers [error, error, "0", "1"] the boot phase
    polls four times and returns success after the fourth answer: the
    two errors and the "0" are each followed by the two-second sleep and
    another poll.  The fourth poll has to start before the timeout. *)
Theorem boot_error_is_transient (t0 : Z) (serial : string) (timeout : Z)
    (e1 e2 : exn) (l1 l2 l3 l4 : N) (after : Reply) :
  Z.of_N l1 + Z.of_N l2 + Z.of_N l3 + 6000 < timeout * 1000 →
  observe
    (wait_for_boot_complete serial timeout
       (scripted t0 [fails l1 e1; fails l2 e2; says l3 "0"; says l4 "1"]
          after))
  = (Ok true,
     t0 + Z.of_N l1 + Z.of_N l2 + Z.of_N l3 + Z.of_N l4 + 6000,
     4%nat,
     [(t0, EvRun (getprop_cmd serial) true);
      (t0 + Z.of_N l1, EvSleep 2);
      (t0 + Z.of_N l1 + 2000, EvRun (getprop_cmd serial) true);
      (t0 + Z.of_N l1 + 2000 + Z.of_N l2, EvSleep 2);
      (t0 + Z.of_N l1 + 2000 + Z.of_N l2 + 2000,
       EvRun (getprop_cmd serial) true);
      (t0 + Z.of_N l1 + 2000 + Z.of_N l2 + 2000 + Z.of_N l3, EvSleep 2);
      (t0 + Z.of_N l1 + 2000 + Z.of_N l2 + 2000 + Z.of_N l3 + 2000,
       EvRun (getprop_cmd serial) true);
      (t0 + Z.of_N l1 + 2000 + Z.of_N l2 + 2000 + Z.of_N l3 + 2000
       + Z.of_N l4,
       EvPrint ("[boot] " +:+ serial +:+ " boot complete."))]).
Proof.
  intros Htime.
  set (w := scripted t0 _ after).
  change (wait_for_boot_complete serial timeout w)
    with (run_phase Boot serial timeout w).
  rewrite (run_phase_hit Boot serial timeout w 3).
  - unfold observe, getprop_cmd. simpl. unfold boot_trace. simpl.
    do 3 f_equal. lia.
  - intros [|[|[|j]]] Hj; [done|done|done|lia].
  - done.
  - unfold pass_time. simpl. lia.
Qed.

(** The scenario with the default timeout of 420 seconds. *)
Lemma boot_error_is_transient_witness :
  fst (fst (fst
    (observe
       (wait_for_boot_complete "emulator-5554" BOOT_TIMEOUT
          (scripted 0
             [fails 15 (Exn SubprocessError "device offline");
              fails 15 (Exn SubprocessError "device offline");
              says 40 "0"; says 40 "1"] quiet)))))
  = Ok true.
Proof.
  rewrite (boot_error_is_transient 0 "emulator-5554" BOOT_TIMEOUT
             (Exn SubprocessError "device offline")
             (Exn SubprocessError "device offline") 15 15 40 40 quiet).
  - reflexivity.
  - vm_compute. reflexivity.
Defined.

(** ** C5: the timeouts of the two phases *)

(** C5: in either phase, when no poll that starts before the timeout
    finds the target condition, the phase raises its own timeout error
    once the timeout has elapsed, and every poll it has made started
    before the timeout. *)
Theorem readiness_timeout (ph : Phase) (w : World) (serial : string)
    (timeout : Z) :
  (∀ j, pass_time w j - clock w < timeout * 1000 →
        phase_hit ph serial (script w (calls w + j)%nat) = false) →
  ∃ w' new,
    run_phase ph serial timeout w
    = (Raise (phase_error ph serial timeout), w') ∧
    timeout * 1000 ≤ clock w' - clock w ∧
    log w' = log w ++ new ∧
    Forall (fun te => polls te.2 = true →
                      te.1 - clock w < timeout * 1000) new.
Proof.
  intros Hnever.
  destruct (run_phase_outcome ph serial timeout w)
    as (k & Hmiss & Hin & [(Hhit & Htime & _)|(Hout & Hraise)]).
  { rewrite (Hnever k Htime) in Hhit. done. }
  destruct (after_misses_log (phase_trace ph serial)
              (phase_trace_polls ph serial) (clock w) timeout k w Hin)
    as (new & Hlog & Hnew).
  exists (after_misses (phase_trace ph serial) k w), new.
  split; [done|]. rewrite after_misses_clock. by split.
Qed.

(** The distinct errors of the two phases. *)
Lemma phase_errors_differ serial timeout :
  phase_error Discovery serial timeout ≠ phase_error Boot serial timeout.
Proof.
  unfold phase_error. intros [= H].
  apply (inj (String.app serial)) in H. discriminate.
Qed.

(** A three-second wait for an emulator that is never listed, and for
    a guest that never finishes booting. *)
Lemma readiness_timeout_witness :
  (∃ w' new,
     run_phase Discovery "emulator-5554" 3
       (scripted 0 [fails 10 (Exn OSError "adb not ready")]
          (says 10 (adb_devices_output [("emulator-5556", "device")])))
     = (Raise (phase_error Discovery "emulator-5554" 3), w') ∧
     3 * 1000 ≤ clock w' - 0 ∧
     log w' = [] ++ new ∧
     Forall (fun te => polls te.2 = true → te.1 - 0 < 3 * 1000) new) ∧
  (∃ w' new,
     run_phase Boot "emulator-5554" 3
       (scripted 0 [fails 10 (Exn OSError "adb not ready")] (says 10 "0"))
     = (Raise (phase_error Boot "emulator-5554" 3), w') ∧
     3 * 1000 ≤ clock w' - 0 ∧
     log w' = [] ++ new ∧
     Forall (fun te => polls te.2 = true → te.1 - 0 < 3 * 1000) new).
Proof.
  split.
  - apply (readiness_timeout Discovery
             (scripted 0 [fails 10 (Exn OSError "adb not ready")]
                (says 10 (adb_devices_output [("emulator-5556", "device")])))
             "emulator-5554" 3).
    intros [|j] _; [reflexivity|]. simpl. vm_compute. reflexivity.
  - apply (readiness_timeout Boot
             (scripted 0 [fails 10 (Exn OSError "adb not ready")]
                (says 10 "0"))
             "emulator-5554" 3).
    intros [|j] _; reflexivity.
Defined.

(** ** C8: the payload sequence *)

Section Payload.

(** [BASE_URL.replace("{userId}", s)]: the template holds the
    placeholder once. *)
Lemma base_url_replace (s : string) :
  Py.replace BASE_URL "{userId}" s
  = "https://adswedmedia.com/redirect/manual-offer/1131/user/" +:+ s
    +:+ "/site/Hh1Gk5".
Proof. reflexivity. Qed.

End Payload.

(** C8: whatever the three commands report (exit code, output, error
    output), the payload driver performs the same steps in the same
    order: draw the identifier, open the link, sleep 30 seconds,
    install, sleep 10 seconds, launch, and sleep for the run duration.
    The reply to the install command shows up in the diagnostic line
    only.  The run returns normally unless the run duration is negative,
    in which case the last sleep, once called, raises. *)
Theorem payload_fire_and_continue (w : World)
    (serial apk_path package_name : string) (run_time : Z) :
  let drawn := script w (calls w) in
  let opened := script w (calls w + 1)%nat in
  let installed := script w (calls w + 2)%nat in
  let launched := script w (calls w + 3)%nat in
  let url :=
    Py.replace BASE_URL "{userId}"
      (Py.str_int (100000 + number drawn `mod` 100001)) in
  fault opened = None →
  fault installed = None →
  fault launched = None →
  ∃ w' new,
    open_cpi_and_install serial apk_path package_name run_time w
    = (if bool_decide (run_time < 0)
       then Raise (Exn ValueError "sleep length must be non-negative")
       else Ok tt, w') ∧
    calls w' = (calls w + 4)%nat ∧
    log w' = log w ++ new ∧
    new.*2
    = [EvRandint 100000 200000;
       EvPrint ("[task] " +:+ serial +:+ " opening CPI link: " +:+ url);
       EvRun ["adb"; "-s"; serial; "shell"; "am"; "start"; "-a";
              "android.intent.action.VIEW"; "-d"; url] false;
       EvSleep 30;
       EvPrint ("[task] " +:+ serial +:+ " installing APK: " +:+ apk_path);
       EvRun ["adb"; "-s"; serial; "install"; "-r"; apk_path] true;
       EvPrint ("[adb install] " +:+ serial +:+ " stdout: "
                +:+ stdout installed +:+ "; stderr: " +:+ stderr installed);
       EvSleep 10;
       EvPrint ("[task] " +:+ serial +:+ " launching app " +:+ package_name);
       EvRun ["adb"; "-s"; serial; "shell"; "monkey"; "-p"; package_name;
              "-c"; "android.intent.category.LAUNCHER"; "1"] false;
       EvPrint ("[task] " +:+ serial +:+ " keeping app open for "
                +:+ Py.str_int run_time +:+ "s");
       EvSleep run_time]
      ++ (if bool_decide (run_time < 0) then []
          else [EvPrint ("[task] " +:+ serial +:+ " finished workflow.")]).
Proof.
  intros drawn opened installed launched url Hopen Hinstall Hlaunch.
  unfold open_cpi_and_install, random_randint, run_cmd, bind,
    external_total, external, print, time_sleep, ret.
  simpl. fold drawn.
  replace (script w (S (calls w))) with opened
    by (unfold opened; f_equal; lia).
  rewrite Hopen. simpl.
  replace (script w (S (S (calls w)))) with installed
    by (unfold installed; f_equal; lia).
  rewrite Hinstall. simpl.
  replace (script w (S (S (S (calls w))))) with launched
    by (unfold launched; f_equal; lia).
  rewrite Hlaunch. simpl.
  change (200000 - 100000 + 1) with 100001. fold url.
  case_bool_decide; eexists _, _; (split; [reflexivity|]);
    unfold emit, advance; simpl; (split; [lia|]);
    rewrite <- !app_assoc; simpl; (split; [reflexivity|]); reflexivity.
Qed.

(** The install command fails with exit code 1 and an error message;
    the launch follows all the same. *)
Lemma payload_fire_and_continue_witness :
  let w := scripted 0
             [{| latency := 0; fault := None; returncode := 0; stdout := "";
                 stderr := ""; number := 4242; running := false;
                 handle := None |};
              says 120 "Starting: Intent";
              {| latency := 900; fault := None; returncode := 1;
                 stdout := "";
                 stderr := "adb: failed to install: INSTALL_FAILED";
                 number := 0; running := false; handle := None |};
              says 80 "Events injected: 1"]
             quiet in
  ∃ w' new,
    open_cpi_and_install "emulator-5554" APK_PATH PACKAGE_NAME RUN_TIME w
    = (Ok tt, w') ∧
    calls w' = 4%nat ∧
    log w' = new ∧
    polls <$> new.*2
    = [false; false; true; false; false; true; false; false; false; true;
       false; false; false].
Proof.
  intros w.
  destruct (payload_fire_and_continue w "emulator-5554" APK_PATH
              PACKAGE_NAME RUN_TIME eq_refl eq_refl eq_refl)
    as (w' & new & Hrun & Hcalls & Hlog & Hnew).
  exists w', new. split; [exact Hrun|]. split; [exact Hcalls|].
  split; [exact Hlog|]. rewrite Hnew. reflexivity.
Defined.

(** ** The worker's stages *)

Section Stages.

Lemma settles_ret {A} (a : A) : settles (ret a).
Proof. apply settles_succeeds, succeeds_ret. Qed.

Lemma settles_print line : settles (print line).
Proof. apply settles_succeeds, succeeds_print. Qed.

Lemma settles_time_sleep seconds : settles (time_sleep seconds).
Proof.
  intros w r w'. unfold time_sleep. case_bool_decide; intros [= <- <-]; eauto.
Qed.

Lemma settles_popen cmd logfile : settles (popen cmd logfile).
Proof.
  intros w r w'. unfold popen, external.
  destruct (fault _); intros [= <- <-]; eauto.
Qed.

Lemma settles_start_emulator_detached avd_name port :
  settles (start_emulator_detached avd_name port).
Proof.
  unfold start_emulator_detached.
  apply settles_bind; [apply settles_print|]. intros _.
  apply settles_bind; [apply settles_external|]. intros _.
  apply settles_bind; [apply settles_popen|]. intros proc.
  apply settles_ret.
Qed.

Lemma settles_run_phase ph serial timeout : settles (run_phase ph serial timeout).
Proof.
  intros w r w' Hrun.
  destruct (run_phase_outcome ph serial timeout w)
    as (k & _ & _ & [(_ & _ & Hok)|(_ & Hraise)]).
  - left. exists true. rewrite Hok in Hrun. by simplify_eq.
  - right. eexists. rewrite Hraise in Hrun. by simplify_eq.
Qed.

Lemma settles_random_randint lo hi : settles (random_randint lo hi).
Proof.
  apply settles_succeeds, succeeds_bind; [apply succeeds_external_total|].
  intros r. apply succeeds_ret.
Qed.

Lemma settles_open_cpi_and_install serial apk_path package_name run_time :
  settles (open_cpi_and_install serial apk_path package_name run_time).
Proof.
  unfold open_cpi_and_install.
  repeat first
    [ apply settles_random_randint | apply settles_print
    | apply settles_run_cmd | apply settles_time_sleep
    | apply settles_bind; [|intros ?] ].
Qed.

Lemma settles_worker_stages avd_name port proc_holder :
  settles (worker_stages avd_name port proc_holder).
Proof.
  unfold worker_stages.
  apply settles_bind; [apply settles_start_emulator_detached|]. intros started.
  apply settles_bind;
    [apply settles_succeeds, succeeds_update_holder|]. intros _.
  apply settles_bind;
    [apply settles_succeeds, succeeds_update_holder|]. intros _.
  apply settles_bind; [apply settles_print|]. intros _.
  apply settles_bind; [apply (settles_run_phase Discovery)|]. intros _.
  apply settles_bind; [apply settles_print|]. intros _.
  apply settles_bind; [apply (settles_run_phase Boot)|]. intros _.
  apply settles_open_cpi_and_install.
Qed.

Context (P : Event -> bool).
Hypothesis P_print : ∀ line, P (EvPrint line) = true.
Hypothesis P_run : ∀ cmd capture_output, P (EvRun cmd capture_output) = true.
Hypothesis P_sleep : ∀ seconds, P (EvSleep seconds) = true.
Hypothesis P_open : ∀ path, P (EvOpen path) = true.
Hypothesis P_popen : ∀ cmd logfile, P (EvPopen cmd logfile) = true.
Hypothesis P_randint : ∀ lo hi, P (EvRandint lo hi) = true.

Lemma logs_update_holder ref f : logs P (update_holder ref f).
Proof.
  intros w r w' [= <- <-]. repeat split; simpl; try lia.
  exists []. by rewrite app_nil_r.
Qed.

Lemma logs_popen cmd logfile : logs P (popen cmd logfile).
Proof.
  intros w r w' Hrun. unfold popen in Hrun.
  destruct (external _ w) as [r0 w0] eqn:Hext.
  assert (w' = w0) as -> by (destruct r0; by simplify_eq).
  eapply logs_external; [apply P_popen|exact Hext].
Qed.

Lemma logs_start_emulator_detached avd_name port :
  logs P (start_emulator_detached avd_name port).
Proof.
  unfold start_emulator_detached.
  apply logs_bind; [by apply logs_print|]. intros _.
  apply logs_bind; [by apply logs_external|]. intros _.
  apply logs_bind; [apply logs_popen|]. intros proc. apply logs_ret.
Qed.

Lemma logs_poll_loop fuel start timeout probe expired :
  logs P probe → logs P (poll_loop fuel start timeout probe expired).
Proof.
  intros Hprobe. induction fuel as [|fuel IH]; simpl.
  - apply logs_bind; [apply logs_time_time|]. intros now.
    case_bool_decide; [apply logs_out_of_fuel|apply logs_raise].
  - apply logs_bind; [apply logs_time_time|]. intros now.
    case_bool_decide; [|apply logs_raise].
    apply logs_bind; [done|]. intros [|]; [apply logs_ret|].
    apply logs_bind; [by apply logs_time_sleep|done].
Qed.

Lemma logs_wait_for_serial serial timeout :
  logs P (wait_for_serial serial timeout).
Proof.
  unfold wait_for_serial. apply logs_bind; [apply logs_time_time|].
  intros start. apply logs_poll_loop. unfold serial_probe.
  apply logs_bind; [by apply logs_list_adb_devices|]. intros devs.
  apply logs_ret.
Qed.

Lemma logs_wait_for_boot_complete serial timeout :
  logs P (wait_for_boot_complete serial timeout).
Proof.
  unfold wait_for_boot_complete. apply logs_bind; [apply logs_time_time|].
  intros start. apply logs_poll_loop. unfold boot_probe.
  apply logs_try_except; [|intros; apply logs_ret].
  apply logs_bind; [by apply logs_run_cmd|]. intros r.
  destruct (_ && _); [|apply logs_ret].
  apply logs_bind; [by apply logs_print|]. intros _. apply logs_ret.
Qed.

Lemma logs_open_cpi_and_install serial apk_path package_name run_time :
  logs P (open_cpi_and_install serial apk_path package_name run_time).
Proof.
  unfold open_cpi_and_install, random_randint.
  repeat first
    [ apply logs_ret | by apply logs_external_total | by apply logs_print
    | by apply logs_run_cmd | by apply logs_time_sleep
    | apply logs_bind; [|intros ?] ].
Qed.

Lemma logs_worker_stages avd_name port proc_holder :
  logs P (worker_stages avd_name port proc_holder).
Proof.
  unfold worker_stages.
  apply logs_bind; [apply logs_start_emulator_detached|]. intros started.
  apply logs_bind; [apply logs_update_holder|]. intros _.
  apply logs_bind; [apply logs_update_holder|]. intros _.
  apply logs_bind; [by apply logs_print|]. intros _.
  apply logs_bind; [apply logs_wait_for_serial|]. intros _.
  apply logs_bind; [by apply logs_print|]. intros _.
  apply logs_bind; [apply logs_wait_for_boot_complete|]. intros _.
  apply logs_open_cpi_and_install.
Qed.

End Stages.

(** The stages return or raise, and never touch the permit pool. *)
Lemma worker_stages_run avd_name port proc_holder w :
  ∃ r w' middle,
    worker_stages avd_name port proc_holder w = (r, w') ∧
    (r = Ok tt ∨ ∃ e, r = Raise e) ∧
    log w' = log w ++ middle ∧
    Forall (fun te => on_semaphore te.2 = false) middle.
Proof.
  destruct (worker_stages avd_name port proc_holder w) as [r w'] eqn:Hrun.
  destruct (logs_worker_stages off_semaphore ltac:(done) ltac:(done)
              ltac:(done) ltac:(done) ltac:(done) ltac:(done)
              _ _ _ _ _ _ Hrun) as (_ & _ & _ & middle & Hlog & Hmiddle).
  exists r, w', middle. split; [done|]. split; [|split; [done|]].
  - destruct (settles_worker_stages _ _ _ _ _ _ Hrun) as [[[] ->]|[e ->]];
      eauto.
  - eapply Forall_impl; [exact Hmiddle|]. intros [t ev]. simpl.
    unfold off_semaphore. by destruct (on_semaphore ev).
Qed.

(** The worker returns normally in every world. *)
Lemma instance_worker_returns avd_name port proc_holder w :
  ∃ w', instance_worker avd_name port proc_holder w = (Ok tt, w').
Proof.
  unfold instance_worker, semaphore_acquire, bind, external, ret.
  destruct (fault (script w (calls w))) as [e|]; simpl; [by eexists|].
  set (w1 := advance _ (emit EvAcquire w)).
  destruct (worker_stages_run avd_name port proc_holder w1)
    as (r & w2 & _ & -> & [->|[e ->]] & _); simpl; by eexists.
Qed.

(** ** The worker as a machine *)

Section WorkerMachine.

Lemma worker_stages_split avd_name port proc_holder w :
  worker_stages avd_name port proc_holder w
  = bind (stage_action avd_name port proc_holder AtLaunch true)
      (fun _ =>
         bind (stage_action avd_name port proc_holder AtDiscovery true)
           (fun _ =>
              bind (stage_action avd_name port proc_holder AtBoot true)
                (fun _ =>
                   stage_action avd_name port proc_holder AtPayload true)))
      w.
Proof.
  unfold worker_stages, stage_action, bind, ret, update_holder, print.
  destruct (start_emulator_detached avd_name port w) as [[a| | |] w1];
    try done.
  destruct (wait_for_serial _ _ _) as [[b| | |] w2]; try done.
  by destruct (wait_for_boot_complete _ _ _) as [[c| | |] w3].
Qed.

Lemma settles_stage_action avd_name port proc_holder pc acquired :
  settles (stage_action avd_name port proc_holder pc acquired).
Proof.
  destruct pc; simpl.
  - apply settles_bind; [apply settles_external|intros; apply settles_ret].
  - apply settles_bind; [apply settles_start_emulator_detached|]. intros ?.
    apply settles_bind; intros; apply settles_succeeds, succeeds_update_holder.
  - apply settles_bind; [apply settles_print|]. intros _.
    apply settles_bind; [apply (settles_run_phase Discovery)|].
    intros; apply settles_ret.
  - apply settles_bind; [apply settles_print|]. intros _.
    apply settles_bind; [apply (settles_run_phase Boot)|].
    intros; apply settles_ret.
  - apply settles_open_cpi_and_install.
  - apply settles_print.
  - destruct acquired; [|apply settles_ret].
    intros w r w' [= <- <-]. eauto.
  - apply settles_ret.
Qed.

Lemma drive_all_S fuel proc_holder counter wk w r w' :
  stage_action (w_name wk) (w_port wk) proc_holder (w_pc wk) (w_acquired wk) w
  = (r, w') →
  drive_all (S fuel) proc_holder (counter, wk, w)
  = match worker_step counter wk
            (match r with Raise e => Some e | _ => None end) with
    | Some (counter', wk') => drive_all fuel proc_holder (counter', wk', w')
    | None => (counter, wk, w)
    end.
Proof.
  intros Hrun. simpl. unfold drive. rewrite Hrun. simpl.
  by destruct (worker_step _ _ _) as [[counter' wk']|].
Qed.

Ltac drive_with H :=
  match goal with
  | |- context [drive_all (S ?f) ?ph (?c, ?wk, ?w)] =>
      rewrite (drive_all_S f ph c wk w _ _ H)
  end;
  cbn [worker_step w_pc w_acquired w_name w_port]; unfold at_pc;
  cbn [w_pc w_acquired w_name w_port].

(** From the [finally] clause on. *)
Lemma drive_all_finally fuel proc_holder counter name port acquired w :
  drive_all (S (S fuel)) proc_holder
    (counter,
     {| w_name := name; w_port := port; w_pc := AtFinally;
        w_acquired := acquired |}, w)
  = (if acquired then S counter else counter,
     {| w_name := name; w_port := port; w_pc := Finished;
        w_acquired := acquired |},
     if acquired then emit EvRelease w else w).
Proof.
  destruct acquired.
  - rewrite (drive_all_S _ _ _ _ _ (Ok tt) (emit EvRelease w)) by done.
    cbn [worker_step w_pc w_acquired at_pc w_name w_port].
    by rewrite (drive_all_S _ _ _ _ _ (Ok tt) (emit EvRelease w)).
  - rewrite (drive_all_S _ _ _ _ _ (Ok tt) w) by done.
    cbn [worker_step w_pc w_acquired at_pc w_name w_port].
    by rewrite (drive_all_S _ _ _ _ _ (Ok tt) w).
Qed.

(** From the [except] clause on. *)
Lemma drive_all_except fuel proc_holder counter name port acquired e w :
  drive_all (S (S (S fuel))) proc_holder
    (counter,
     {| w_name := name; w_port := port; w_pc := AtExcept e;
        w_acquired := acquired |}, w)
  = (if acquired then S counter else counter,
     {| w_name := name; w_port := port; w_pc := Finished;
        w_acquired := acquired |},
     let w1 :=
       emit (EvPrint ("[ERROR] instance " +:+ name +:+ " (port "
                      +:+ Py.str_int port +:+ ") failed: " +:+ str_exn e))
         w in
     if acquired then emit EvRelease w1 else w1).
Proof.
  erewrite drive_all_S by reflexivity.
  cbn [worker_step w_pc w_acquired at_pc w_name w_port].
  apply drive_all_finally.
Qed.

(** X16: [instance_worker] is the machine of [worker_step] driven by what
    each stage does in the world: started with a permit available, it
    ends finished, in the world [instance_worker] ends in, and with the
    counter of the semaphore back at its value. *)
Lemma instance_worker_drive avd_name port proc_holder w counter :
  ∃ wk' w',
    drive_all 8 proc_holder
      (S counter,
       {| w_name := avd_name; w_port := port; w_pc := AtAcquire;
          w_acquired := false |}, w)
    = (S counter, wk', w') ∧
    w_pc wk' = Finished ∧
    instance_worker avd_name port proc_holder w = (Ok tt, w').
Proof.
  unfold instance_worker.
  change (semaphore_acquire w)
    with (stage_action avd_name port proc_holder AtAcquire false w).
  destruct (stage_action _ _ _ AtAcquire false w) as [r0 w0] eqn:H0.
  destruct (settles_stage_action _ _ _ _ _ _ _ _ H0) as [[[] ->]|[e ->]];
    drive_with H0.
  2:{ rewrite drive_all_except. eexists _, _. by repeat split. }
  rewrite worker_stages_split.
  destruct (stage_action avd_name port proc_holder AtLaunch true w0)
    as [r1 w1] eqn:H1.
  destruct (settles_stage_action _ _ _ _ _ _ _ _ H1) as [[[] ->]|[e ->]];
    drive_with H1.
  2:{ rewrite drive_all_except,
        (bind_abort _ _ _ _ _ H1) by done.
      eexists _, _. by repeat split. }
  rewrite (bind_Ok _ _ _ _ _ H1).
  destruct (stage_action avd_name port proc_holder AtDiscovery true w1)
    as [r2 w2] eqn:H2.
  destruct (settles_stage_action _ _ _ _ _ _ _ _ H2) as [[[] ->]|[e ->]];
    drive_with H2.
  2:{ rewrite drive_all_except,
        (bind_abort _ _ _ _ _ H2) by done.
      eexists _, _. by repeat split. }
  rewrite (bind_Ok _ _ _ _ _ H2).
  destruct (stage_action avd_name port proc_holder AtBoot true w2)
    as [r3 w3] eqn:H3.
  destruct (settles_stage_action _ _ _ _ _ _ _ _ H3) as [[[] ->]|[e ->]];
    drive_with H3.
  2:{ rewrite drive_all_except,
        (bind_abort _ _ _ _ _ H3) by done.
      eexists _, _. by repeat split. }
  rewrite (bind_Ok _ _ _ _ _ H3).
  destruct (stage_action avd_name port proc_holder AtPayload true w3)
    as [r4 w4] eqn:H4.
  destruct (settles_stage_action _ _ _ _ _ _ _ _ H4) as [[[] ->]|[e ->]];
    drive_with H4.
  - rewrite drive_all_finally. eexists _, _. by repeat split.
  - rewrite drive_all_except. eexists _, _. by repeat split.
Qed.

End WorkerMachine.

(** ** C6: the permit is given back exactly once *)

(** C6: in every world the worker returns, and its log has one of two
    shapes.  If the permit was acquired, the log starts with the
    acquisition, ends with the one release, and has no operation on the
    permit pool in between, whichever stage failed or whether none did.
    If the acquisition itself raised, the log holds no release at
    all. *)
Theorem permit_released_once (avd_name : string) (port : Z)
    (proc_holder : nat) (w : World) :
  ∃ w' new,
    instance_worker avd_name port proc_holder w = (Ok tt, w') ∧
    log w' = log w ++ new ∧
    match fault (script w (calls w)) with
    | None =>
        ∃ middle,
          new = (clock w, EvAcquire) :: middle ++ [(clock w', EvRelease)] ∧
          Forall (fun te => on_semaphore te.2 = false) middle
    | Some e =>
        ∃ t line, new = [(clock w, EvAcquire); (t, EvPrint line)]
    end.
Proof.
  unfold instance_worker, semaphore_acquire, bind, external, ret.
  destruct (fault (script w (calls w))) as [e|] eqn:Hfault.
  - simpl. eexists _, _. split; [reflexivity|]. simpl.
    rewrite <- app_assoc. split; [reflexivity|]. by eexists _, _.
  - set (w1 := advance _ (emit EvAcquire w)).
    destruct (worker_stages_run avd_name port proc_holder w1)
      as (r & w2 & middle & -> & [->|[e ->]] & Hlog & Hoff); simpl.
    + eexists _, _. split; [reflexivity|]. simpl. rewrite Hlog. simpl.
      rewrite <- !app_assoc. split; [reflexivity|]. by exists middle.
    + eexists _, _. split; [reflexivity|]. simpl. rewrite Hlog. simpl.
      rewrite <- !app_assoc. split; [reflexivity|].
      eexists (middle ++ [_]). rewrite <- app_assoc. split; [reflexivity|].
      apply Forall_app. split; [done|]. by repeat constructor.
Qed.

(** The paths of C6, one world each: the whole workflow succeeds; the
    emulator never shows up; the guest never finishes booting; the
    launch of the emulator fails; the install command cannot be run.
    In the last world the acquisition itself fails. *)
Example worker_paths :
  let listed := says 10 (adb_devices_output [("emulator-5554", "device")]) in
  let run script after :=
    milestones (instance_worker "MyAVD3_copy1" 5554 0
                  (scripted 0 script after)) in
  run [quiet; quiet; quiet; listed; says 10 "1"] quiet
  = (Ok tt, [EvAcquire; EvRelease]) ∧
  run [] quiet = (Ok tt, [EvAcquire; EvRelease]) ∧
  run [quiet; quiet; quiet] listed = (Ok tt, [EvAcquire; EvRelease]) ∧
  run [quiet; quiet; fails 0 (Exn FileNotFoundError "emulator")] quiet
  = (Ok tt, [EvAcquire; EvRelease]) ∧
  run [quiet; quiet; quiet; listed; says 10 "1"; quiet; quiet;
       fails 10 (Exn SubprocessError "adb died")] quiet
  = (Ok tt, [EvAcquire; EvRelease]) ∧
  run [fails 0 (Exn RuntimeError "interrupted")] quiet
  = (Ok tt, [EvAcquire]).
Proof. vm_compute. repeat split. Qed.

(** ** C7: failures stay inside the worker *)

(** C7: the worker returns normally in every world, whatever its stages
    raise; and a run whose preparation and port reservation succeed
    ends [main] normally, that is with exit status 0: nothing that
    happens to an instance reaches the orchestrator, which only waits
    for the threads to finish. *)
Theorem failures_stay_inside (w w1 : World) (avd_names : list string)
    (existing : gset string) (reserved_ports : list Z) :
  prepare_run w = (Ok (avd_names, existing), w1) →
  reserve_ports existing avd_names [] = Ok reserved_ports →
  (∃ w', main w = (Ok tt, w') ∧ exit_status (main w).1 = Some 0) ∧
  (∀ avd_name port proc_holder u,
     ∃ u', instance_worker avd_name port proc_holder u = (Ok tt, u')).
Proof.
  intros Hprep Hres. split.
  - destruct (succeeds_launch_and_wait (zip avd_names reserved_ports) w1)
      as ([] & w' & Hrun).
    assert (main w = (Ok tt, w')) as Hmain.
    { unfold main. rewrite (bind_Ok _ _ _ _ _ Hprep). simpl.
      unfold lift, bind at 1, plan_instances. by rewrite Hres. }
    exists w'. by rewrite Hmain.
  - intros avd_name port proc_holder u. apply instance_worker_returns.
Qed.

(** Two instances are requested; the first worker leaves no process
    behind (its launch failed), the second does.  [main] ends with
    status 0 all the same. *)
Lemma failures_stay_inside_witness :
  ∃ w', main uneven_world = (Ok tt, w') ∧
        exit_status (main uneven_world).1 = Some 0.
Proof.
  refine (proj1 (failures_stay_inside uneven_world
                   (prepare_run uneven_world).2
                   (avd_names_of 2) {[ "emulator-5554" ]} [5556; 5558]
                   _ _)).
  - vm_compute. reflexivity.
  - vm_compute. reflexivity.
Defined.

(** ** C9: the permit pool bounds the active workers *)

Section Permits.

Lemma count_app {A} (f : A -> bool) (l k : list A) :
  count f (l ++ k) = (count f l + count f k)%nat.
Proof. induction l as [|x l IH]; simpl; [done|]. rewrite IH. lia. Qed.

Lemma count_insert {A} (f : A -> bool) (l : list A) (i : nat) (x y : A) :
  l !! i = Some x →
  (count f (<[i := y]> l) + (if f x then 1 else 0)
   = count f l + (if f y then 1 else 0))%nat.
Proof.
  revert i. induction l as [|z l IH]; intros [|i] Hi; simplify_eq/=.
  - lia.
  - specialize (IH i Hi). lia.
Qed.

Lemma count_le {A} (f g : A -> bool) (l : list A) :
  (∀ x, f x = true → g x = true) → (count f l ≤ count g l)%nat.
Proof.
  intros Hfg. induction l as [|x l IH]; simpl; [lia|].
  destruct (f x) eqn:Hf; [rewrite (Hfg x Hf)|destruct (g x)]; lia.
Qed.

Lemma past_launch_holds wk : past_launch wk = true → holds_permit wk = true.
Proof.
  unfold past_launch, holds_permit, is_finished.
  destruct (w_pc wk), (w_acquired wk); done.
Qed.

(** A stage moves one permit between the counter and the worker, or
    none. *)
Lemma worker_step_balance counter wk outcome counter' wk' :
  tidy wk →
  worker_step counter wk outcome = Some (counter', wk') →
  tidy wk' ∧
  (counter' + (if holds_permit wk' then 1 else 0)
   = counter + (if holds_permit wk then 1 else 0))%nat.
Proof.
  unfold worker_step, holds_permit, is_finished, tidy.
  destruct wk as [name port pc acquired]. simpl. intros Htidy.
  destruct pc; try (rewrite Htidy by done);
    destruct outcome, acquired, counter; simpl; intros [= <- <-]; simpl;
    (split; [done|lia]).
Qed.

Lemma sys_step_balance a s s' :
  Forall tidy (workers s) →
  sys_step a s = Some s' →
  Forall tidy (workers s') ∧
  (permits s' + count holds_permit (workers s')
   = permits s + count holds_permit (workers s))%nat.
Proof.
  intros Htidy. destruct a as [|i outcome]; simpl.
  - destruct (main_pc s) as [[|[name port] rest]|next|].
    + by intros [= <-].
    + intros [= <-]. simpl. rewrite count_app. simpl. split; [|lia].
      apply Forall_app. split; [done|]. by repeat constructor.
    + destruct (workers s !! next) as [wk|]; [|by intros [= <-]].
      destruct (is_finished wk); [by intros [= <-]|done].
    + done.
  - destruct (workers s !! i) as [wk|] eqn:Hi; [|done].
    destruct (worker_step _ _ _) as [[counter wk']|] eqn:Hstep; [|done].
    intros [= <-]. simpl.
    assert (tidy wk) as Hwk by (by eapply Forall_lookup_1).
    destruct (worker_step_balance _ _ _ _ _ Hwk Hstep) as [Hwk' Hbal].
    pose proof (count_insert holds_permit _ _ _ wk' Hi).
    split; [by apply Forall_insert|lia].
Qed.

Lemma run_schedule_balance schedule : ∀ s s',
  Forall tidy (workers s) →
  run_schedule schedule s = Some s' →
  (permits s' + count holds_permit (workers s')
   = permits s + count holds_permit (workers s))%nat.
Proof.
  induction schedule as [|a rest IH]; intros s s' Htidy; simpl.
  - by intros [= <-].
  - destruct (sys_step a s) as [s1|] eqn:Hstep; [|done].
    destruct (sys_step_balance _ _ _ Htidy Hstep) as [Htidy1 Hbal].
    intros Hrun. rewrite (IH _ _ Htidy1 Hrun). done.
Qed.

(** A step of one worker leaves [main] and the other workers as they
    are. *)
Lemma worker_moves_alone i outcome s s' :
  sys_step (WorkerMoves i outcome) s = Some s' →
  main_pc s' = main_pc s ∧
  ∀ j, j ≠ i → workers s' !! j = workers s !! j.
Proof.
  simpl. destruct (workers s !! i) as [wk|]; [|done].
  destruct (worker_step _ _ _) as [[counter wk']|]; [|done].
  intros [= <-]. simpl. split; [done|].
  intros j Hj. by apply list_lookup_insert_ne.
Qed.

(** [main] gets to its end with two of three workers failed. *)
Example mixed_fortunes_run :
  let plans := [("MyAVD3_copy1", 5554); ("MyAVD3_copy2", 5556);
                ("MyAVD3_copy3", 5558)] in
  (fun s => (permits s, main_pc s, w_pc <$> workers s))
    <$> run_schedule mixed_fortunes (initial 2 plans)
  = Some (2%nat, Done, [Finished; Finished; Finished]).
Proof. reflexivity. Qed.

End Permits.

(** C9: with a pool of [limit] permits, however [main] and the workers
    of any number of plans are interleaved, the permits left in the pool
    and the workers holding one always add up to [limit]; so at most
    [limit] workers are past the launch stage and before their terminal
    state. *)
Theorem permits_bound_active (limit : nat) (plans : list (string * Z))
    (schedule : list Action) (s : System) :
  run_schedule schedule (initial limit plans) = Some s →
  (permits s + count holds_permit (workers s) = limit)%nat ∧
  (count past_launch (workers s) ≤ limit)%nat.
Proof.
  intros Hrun. apply run_schedule_balance in Hrun; [|by constructor].
  simpl in Hrun. split; [lia|].
  pose proof (count_le past_launch holds_permit (workers s)
                past_launch_holds). lia.
Qed.

Lemma permits_bound_active_witness :
  ∃ s,
    run_schedule three_under_two
      (initial 2 [("MyAVD3_copy1", 5554); ("MyAVD3_copy2", 5556);
                  ("MyAVD3_copy3", 5558)]) = Some s ∧
    sys_step (WorkerMoves 2 None) s = None ∧
    count past_launch (workers s) = 2%nat ∧
    (permits s + count holds_permit (workers s) = 2)%nat ∧
    (count past_launch (workers s) ≤ 2)%nat.
Proof.
  eexists. split; [vm_compute; reflexivity|]. split; [reflexivity|].
  split; [reflexivity|].
  apply (permits_bound_active 2
           [("MyAVD3_copy1", 5554); ("MyAVD3_copy2", 5556);
            ("MyAVD3_copy3", 5558)] three_under_two).
  reflexivity.
Defined.


(** * Further properties of the code *)

(** ** The allocator beyond the claims *)

Section AllocatorMore.

Implicit Types (existing occupied : gset string).

Lemma ascending_tail a l : ascending (a :: l) → ascending l.
Proof. intros Hl i j p q Hi Hj Hij. apply (Hl (S i) (S j)); [done|done|lia]. Qed.

Lemma ascending_head a l q : ascending (a :: l) → q ∈ l → a < q.
Proof.
  intros Hl [j Hj]%list_elem_of_lookup. apply (Hl 0%nat (S j)); [done|done|lia].
Qed.

Lemma ascending_filter (P : Z → Prop) `{∀ x, Decision (P x)} l :
  ascending l → ascending (filter P l).
Proof.
  induction l as [|a l IH]; intros Hl; [done|].
  pose proof (IH (ascending_tail _ _ Hl)) as Hrest.
  destruct (decide (P a)) as [Ha|Ha].
  - rewrite filter_cons_True by done. intros [|i] [|j] p q Hi Hj Hij;
      simplify_eq/=; try lia.
    + eapply ascending_head; [done|].
      by eapply list_elem_of_filter, list_elem_of_lookup_2.
    + apply (Hrest i j); [done|done|lia].
  - by rewrite filter_cons_False.
Qed.

Lemma port_range_ascending : ascending port_range.
Proof. intros i j p q Hi Hj Hij. by apply (port_range_lookup_lt i j p q). Qed.

Lemma free_ports_ascending existing : ascending (free_ports existing).
Proof. apply ascending_filter, port_range_ascending. Qed.

Lemma free_ports_length existing : (length (free_ports existing) ≤ 65)%nat.
Proof.
  unfold free_ports.
  etrans; [apply length_filter|]. by rewrite port_range_length.
Qed.

End AllocatorMore.

(** X1: the allocation succeeds exactly when the snapshot leaves at least
    [total] ports of the range free, and raises the "no free port" error
    exactly when it leaves fewer; the range never offers more than 65
    ports, so no run of more than 65 instances can be planned. *)
Theorem allocation_exact (total : Z) (existing : gset string) :
  ((∃ plans, plan_instances (avd_names_of total) existing = Ok plans) ↔
   total ≤ Z.of_nat (length (free_ports existing))) ∧
  (plan_instances (avd_names_of total) existing
   = Raise (Exn RuntimeError "No free emulator ports available") ↔
   Z.of_nat (length (free_ports existing)) < total) ∧
  (65 < total →
   plan_instances (avd_names_of total) existing
   = Raise (Exn RuntimeError "No free emulator ports available")).
Proof.
  pose proof (free_ports_length existing) as Hmax.
  rewrite plan_instances_spec.
  destruct (decide (Z.to_nat total ≤ length (free_ports existing))%nat)
    as [Hle|Hgt].
  - split; [|split].
    + split; [lia|eauto].
    + split; [done|lia].
    + lia.
  - split; [|split].
    + split; [by intros [plans ?]|lia].
    + split; [lia|done].
    + done.
Qed.

(** X2: the plans come in order: plan number [i] (from 0) is the clone
    named [MyAVD3_copy<i+1>] on the [i]-th free port of the range, so
    the ports grow strictly along the plans. *)
Theorem plans_in_order (total : Z) (existing : gset string)
    (plans : list (string * Z)) (i : nat) (name : string) (port : Z) :
  plan_instances (avd_names_of total) existing = Ok plans →
  plans !! i = Some (name, port) →
  name = BASE_AVD +:+ "_copy" +:+ Py.str_int (Z.of_nat i + 1) ∧
  free_ports existing !! i = Some port ∧
  ∀ (j : nat) name' port',
    plans !! j = Some (name', port') → (i < j)%nat → port < port'.
Proof.
  rewrite plan_instances_spec. case_decide as Hle; [|done].
  intros [= <-] Hi.
  apply lookup_zip_with_Some in Hi as (n & p & [= -> ->] & Hname & Hport).
  apply lookup_take_Some in Hport as [Hport Hlt].
  unfold avd_names_of in Hname. rewrite range0_seq in Hname.
  rewrite !list_lookup_fmap in Hname.
  destruct (seq _ _ !! i) as [k|] eqn:Hk; [|done].
  apply lookup_seq in Hk as [-> _]. simpl in Hname.
  split; [by simplify_eq|]. split; [done|].
  intros j name' port' Hj Hij.
  apply lookup_zip_with_Some in Hj as (n' & p' & [= -> ->] & _ & Hport').
  apply lookup_take_Some in Hport' as [Hport' _].
  by apply (free_ports_ascending existing i j).
Qed.

(** Three instances beside two live emulators: the second plan. *)
Lemma plans_in_order_witness :
  "MyAVD3_copy2" = BASE_AVD +:+ "_copy" +:+ Py.str_int (Z.of_nat 1 + 1) ∧
  free_ports {[ "emulator-5554"; "emulator-5558" ]} !! 1%nat = Some 5560 ∧
  ∀ (j : nat) name' port',
    [("MyAVD3_copy1", 5556); ("MyAVD3_copy2", 5560); ("MyAVD3_copy3", 5562)]
      !! j = Some (name', port') → (1 < j)%nat → 5560 < port'.
Proof.
  apply (plans_in_order 3 {[ "emulator-5554"; "emulator-5558" ]}
           [("MyAVD3_copy1", 5556); ("MyAVD3_copy2", 5560);
            ("MyAVD3_copy3", 5562)] 1 "MyAVD3_copy2" 5560).
  - vm_compute. reflexivity.
  - reflexivity.
Defined.

(** X3: only the serials of the range count: two occupied sets that
    agree on the sixty-five serials [emulator-5554] ... [emulator-5682]
    give the same answer, whatever else they hold (phones, emulators on
    other ports). *)
Theorem find_free_ignores_others (occupied occupied' : gset string) :
  (∀ p, p ∈ port_range →
        serial_of p ∈ occupied ↔ serial_of p ∈ occupied') →
  find_free_emulator_port occupied = find_free_emulator_port occupied'.
Proof.
  intros Hagree. unfold find_free_emulator_port.
  assert (first_free port_range occupied = first_free port_range occupied')
    as ->; [|done].
  assert (∀ p, p ∈ port_range → p ∈ port_range) as Hin by done.
  revert Hin. generalize port_range at 1 3 4.
  induction l as [|a l IH]; intros Hin; simpl; [done|].
  rewrite IH by (intros p Hp; apply Hin; by right).
  assert (serial_of a ∈ occupied ↔ serial_of a ∈ occupied') as Ha
    by (apply Hagree, Hin; left).
  do 2 case_bool_decide; tauto.
Qed.

(** A phone and an emulator on an odd port beside [emulator-5554]. *)
Lemma find_free_ignores_others_witness :
  find_free_emulator_port {[ "emulator-5554" ]}
  = find_free_emulator_port
      {[ "emulator-5554"; "R58M123ABC"; "emulator-5555"; "emulator-6000" ]}.
Proof.
  apply find_free_ignores_others.
  intros p Hp. apply (bool_decide_unpack _).
  revert p Hp. apply Forall_forall. apply (bool_decide_unpack _).
  vm_compute. reflexivity.
Defined.

(** X4: more occupied serials never give a smaller port: if the larger
    set still leaves a port, the smaller set leaves one too, and it is
    not above. *)
Theorem find_free_monotone (occupied occupied' : gset string) (port' : Z) :
  occupied ⊆ occupied' →
  find_free_emulator_port occupied' = Ok port' →
  ∃ port, find_free_emulator_port occupied = Ok port ∧ port ≤ port'.
Proof.
  intros Hsub Hfind'.
  apply find_free_smallest in Hfind' as (Hrange & Hfree & _).
  destruct (find_free_emulator_port occupied) as [port| | |] eqn:Hfind.
  - exists port. split; [done|].
    apply find_free_smallest in Hfind as (_ & _ & Hmin).
    destruct (decide (port ≤ port')) as [|Hgt]; [done|].
    exfalso. apply Hfree, Hsub, Hmin; [done|lia].
  - exfalso. unfold find_free_emulator_port in Hfind.
    destruct (first_free _ _) eqn:Hff; [done|].
    apply first_free_None in Hff. rewrite Forall_forall in Hff.
    apply Hfree, Hsub, Hff, Hrange.
  - unfold find_free_emulator_port in Hfind. by destruct (first_free _ _).
  - unfold find_free_emulator_port in Hfind. by destruct (first_free _ _).
Qed.

Lemma find_free_monotone_witness :
  ∃ port, find_free_emulator_port {[ "emulator-5554" ]} = Ok port ∧
          port ≤ 5558.
Proof.
  apply (find_free_monotone {[ "emulator-5554" ]}
           {[ "emulator-5554"; "emulator-5556" ]} 5558).
  - apply (bool_decide_unpack _). vm_compute. reflexivity.
  - vm_compute. reflexivity.
Defined.

(** ** The readiness phases beyond the claims *)

Section PhasesMore.

Lemma elapse_S_r script from k :
  elapse script from (S k)
  = elapse script from k + Z.of_N (latency (script (from + k)%nat)) + 2000.
Proof.
  revert from. induction k as [|k IH]; intros from.
  - simpl. rewrite Nat.add_0_r. lia.
  - change (elapse script from (S (S k)))
      with (Z.of_N (latency (script from)) + 2000
            + elapse script (S from) (S k)).
    rewrite IH. simpl. rewrite Nat.add_succ_r. lia.
Qed.

Lemma pass_time_S w k :
  pass_time w (S k)
  = pass_time w k + Z.of_N (latency (script w (calls w + k)%nat)) + 2000.
Proof. unfold pass_time. rewrite elapse_S_r. lia. Qed.

Lemma pass_time_ge w k : clock w + 2000 * Z.of_nat k ≤ pass_time w k.
Proof. unfold pass_time. pose proof (elapse_ge (script w) (calls w) k). lia. Qed.

End PhasesMore.

(** X5: a readiness phase has two ways out and no other: it returns
    [True], or it raises its own [TimeoutError].  Whatever the command
    channel does (a command that cannot be run, garbage output), nothing
    else is returned or raised, and the [proc_holder] dictionaries are
    left alone. *)
Theorem phase_two_ways_out (ph : Phase) (serial : string) (timeout : Z)
    (w : World) :
  ∃ w',
    (run_phase ph serial timeout w = (Ok true, w') ∨
     run_phase ph serial timeout w
     = (Raise (phase_error ph serial timeout), w')) ∧
    heap w' = heap w.
Proof.
  destruct (run_phase_outcome ph serial timeout w)
    as (k & _ & _ & [(_ & _ & Hok)|(_ & Hraise)]).
  - eexists. split; [left; exact Hok|].
    simpl. apply after_misses_heap.
  - eexists. split; [right; exact Hraise|]. apply after_misses_heap.
Qed.

(** X6: with a timeout of zero or less a phase gives up at once: it
    raises its timeout error without a single poll or sleep, and the
    world is as before. *)
Theorem phase_without_time (ph : Phase) (serial : string) (timeout : Z)
    (w : World) :
  timeout ≤ 0 →
  run_phase ph serial timeout w = (Raise (phase_error ph serial timeout), w).
Proof.
  intros Hzero. rewrite run_phase_unfold.
  rewrite (poll_loop_unfold _ _ _ (phase_probe_run ph serial)).
  by rewrite bool_decide_false by lia.
Qed.

Lemma phase_without_time_witness :
  run_phase Boot "emulator-5554" 0 (scripted 0 [says 5 "1"] quiet)
  = (Raise (phase_error Boot "emulator-5554" 0),
     scripted 0 [says 5 "1"] quiet).
Proof. apply phase_without_time. lia. Defined.

(** X7: what a phase costs.  With [n] the number of polls made: the
    last poll started less than [timeout] seconds after the phase began,
    every poll being two seconds or more after the one before, so
    [2 (n - 1) < timeout]; a success comes within the timeout plus the
    latency of the last poll; a timeout error is raised less than two
    seconds plus the latency of the last poll after the timeout. *)
Theorem phase_budget (ph : Phase) (serial : string) (timeout : Z)
    (w : World) :
  let run := run_phase ph serial timeout w in
  let n := (calls run.2 - calls w)%nat in
  let last := Z.of_N (latency (script w (calls run.2 - 1)%nat)) in
  (n = 0%nat ∨ 2000 * (Z.of_nat n - 1) < timeout * 1000) ∧
  (run.1 = Ok true →
   clock run.2 - clock w < timeout * 1000 + last) ∧
  (run.1 = Raise (phase_error ph serial timeout) →
   timeout * 1000 ≤ clock run.2 - clock w ∧
   (n ≠ 0%nat → clock run.2 - clock w < timeout * 1000 + last + 2000)).
Proof.
  intros run n last. subst run n last.
  destruct (run_phase_outcome ph serial timeout w)
    as (k & _ & Hin & [(_ & Htime & ->)|(Hout & ->)]); simpl.
  - rewrite after_misses_calls, after_misses_clock, after_misses_script.
    replace (S (calls w + k) - calls w)%nat with (S k) by lia.
    rewrite Nat.sub_0_r.
    pose proof (pass_time_ge w k). split; [right; lia|].
    split; [lia|done].
  - rewrite after_misses_calls, after_misses_clock.
    replace (calls w + k - calls w)%nat with k by lia.
    destruct k as [|k].
    + split; [by left|]. split; [done|]. intros _. split; [lia|done].
    + pose proof (Hin k ltac:(lia)) as Hk. pose proof (pass_time_ge w k).
      replace (calls w + S k - 1)%nat with (calls w + k)%nat by lia.
      rewrite pass_time_S in *.
      split; [right; lia|]. split; [done|]. intros _. split; lia.
Qed.

(** ** The payload sequence beyond the claims *)

(** X8: the driver does not catch anything: when one of its three
    commands cannot be run and raises, the sequence stops right there.
    If the link command raises, nothing is installed or launched; if the
    install command raises, nothing is launched; the exception leaves
    the function as it is. *)
Theorem payload_stops_at_exception (w : World)
    (serial apk_path package_name : string) (run_time : Z) :
  let drawn := script w (calls w) in
  let opened := script w (calls w + 1)%nat in
  let installed := script w (calls w + 2)%nat in
  let launched := script w (calls w + 3)%nat in
  let url :=
    Py.replace BASE_URL "{userId}"
      (Py.str_int (100000 + number drawn `mod` 100001)) in
  let run := open_cpi_and_install serial apk_path package_name run_time w in
  let steps := (drop (length (log w)) (log run.2)).*2 in
  let link :=
    [EvRandint 100000 200000;
     EvPrint ("[task] " +:+ serial +:+ " opening CPI link: " +:+ url);
     EvRun ["adb"; "-s"; serial; "shell"; "am"; "start"; "-a";
            "android.intent.action.VIEW"; "-d"; url] false] in
  let install :=
    [EvSleep 30;
     EvPrint ("[task] " +:+ serial +:+ " installing APK: " +:+ apk_path);
     EvRun ["adb"; "-s"; serial; "install"; "-r"; apk_path] true] in
  let launch :=
    [EvPrint ("[adb install] " +:+ serial +:+ " stdout: "
              +:+ stdout installed +:+ "; stderr: " +:+ stderr installed);
     EvSleep 10;
     EvPrint ("[task] " +:+ serial +:+ " launching app " +:+ package_name);
     EvRun ["adb"; "-s"; serial; "shell"; "monkey"; "-p"; package_name;
            "-c"; "android.intent.category.LAUNCHER"; "1"] false] in
  (∀ e, fault opened = Some e → run.1 = Raise e ∧ steps = link) ∧
  (∀ e, fault opened = None → fault installed = Some e →
        run.1 = Raise e ∧ steps = link ++ install) ∧
  (∀ e, fault opened = None → fault installed = None →
        fault launched = Some e →
        run.1 = Raise e ∧ steps = link ++ install ++ launch).
Proof.
  intros drawn opened installed launched url run steps link install launch.
  subst run steps link install launch.
  assert (opened = script w (S (calls w))) as Eo
    by (unfold opened; f_equal; lia).
  assert (installed = script w (S (S (calls w)))) as Ei
    by (unfold installed; f_equal; lia).
  assert (launched = script w (S (S (S (calls w))))) as El
    by (unfold launched; f_equal; lia).
  rewrite Ei. clearbody opened installed launched. subst.
  unfold open_cpi_and_install, random_randint, run_cmd, bind,
    external_total, external, print, time_sleep, ret.
  change (200000 - 100000 + 1) with 100001. fold drawn. fold url.
  split; [|split].
  - intros e Ho. simpl. rewrite Ho. simpl.
    split; [done|]. unfold emit, advance. simpl.
    rewrite <- !app_assoc, drop_app_length. done.
  - intros e Ho Hi. simpl. rewrite Ho. simpl. rewrite Hi. simpl.
    split; [done|]. unfold emit, advance. simpl.
    rewrite <- !app_assoc, drop_app_length. done.
  - intros e Ho Hi Hl. simpl. rewrite Ho. simpl. rewrite Hi. simpl.
    rewrite Hl. simpl.
    split; [done|]. unfold emit, advance. simpl.
    rewrite <- !app_assoc, drop_app_length. done.
Qed.

(** X9: when the three commands return and the run duration is not
    negative, the driver takes the latencies of its four external calls
    plus 30 + 10 + [run_time] seconds, not a millisecond less or more;
    with the configured 180 seconds that is at least 220 seconds for
    which the worker keeps its permit. *)
Theorem payload_duration (w : World)
    (serial apk_path package_name : string) (run_time : Z) :
  fault (script w (calls w + 1)%nat) = None →
  fault (script w (calls w + 2)%nat) = None →
  fault (script w (calls w + 3)%nat) = None →
  0 ≤ run_time →
  ∃ w',
    open_cpi_and_install serial apk_path package_name run_time w
    = (Ok tt, w') ∧
    clock w'
    = clock w
      + Z.of_N (latency (script w (calls w)))
      + Z.of_N (latency (script w (calls w + 1)%nat))
      + Z.of_N (latency (script w (calls w + 2)%nat))
      + Z.of_N (latency (script w (calls w + 3)%nat))
      + 1000 * (30 + 10 + run_time) ∧
    heap w' = heap w.
Proof.
  intros Hopen Hinstall Hlaunch Htime.
  unfold open_cpi_and_install, random_randint, run_cmd, bind,
    external_total, external, print, time_sleep, ret.
  simpl.
  replace (script w (S (calls w))) with (script w (calls w + 1)%nat)
    by (f_equal; lia).
  rewrite Hopen. simpl.
  replace (script w (S (S (calls w)))) with (script w (calls w + 2)%nat)
    by (f_equal; lia).
  rewrite Hinstall. simpl.
  replace (script w (S (S (S (calls w))))) with (script w (calls w + 3)%nat)
    by (f_equal; lia).
  rewrite Hlaunch. simpl.
  rewrite bool_decide_false by lia.
  eexists. split; [reflexivity|]. simpl. split; [lia|done].
Qed.

Lemma payload_duration_witness :
  ∃ w',
    open_cpi_and_install "emulator-5554" APK_PATH PACKAGE_NAME RUN_TIME
      (scripted 0 [quiet; says 120 ""; says 900 "Success"; says 80 ""] quiet)
    = (Ok tt, w') ∧
    clock w' = 221100.
Proof.
  destruct (payload_duration
              (scripted 0 [quiet; says 120 ""; says 900 "Success"; says 80 ""]
                 quiet)
              "emulator-5554" APK_PATH PACKAGE_NAME RUN_TIME
              eq_refl eq_refl eq_refl) as (w' & Hrun & Hclock & _).
  - vm_compute. discriminate.
  - exists w'. split; [exact Hrun|]. rewrite Hclock. reflexivity.
Defined.

(** ** The orchestrator beyond the claims *)

Section MainMore.


Lemma read_total_run w :
  read_total w
  = (match fault (script w (calls w)) with
     | Some e => Raise e
     | None =>
         match typed_total (script w (calls w)) with
         | Some n => Ok n
         | None => Raise (Exn ValueError "invalid literal for int() with base 10")
         end
     end, asked w).
Proof.
  unfold read_total, typed_total, bind, external, asked.
  destruct (fault (script w (calls w))); [done|].
  by destruct (Py.int_of_str _).
Qed.


Lemma settles_for_each {A} (l : list A) body :
  (∀ x, settles (body x)) → settles (for_each l body).
Proof.
  intros Hb. induction l as [|x l IH]; simpl.
  - apply settles_succeeds, succeeds_ret.
  - by apply settles_bind.
Qed.

Lemma ends_well_settles {A} (m : M A) : settles m → ends_well m.
Proof.
  intros Hm w r w' Hrun. destruct (Hm _ _ _ Hrun) as [?|?]; [by left|].
  right. by left.
Qed.

Lemma ends_well_bind {A B} (m : M A) (k : A -> M B) :
  ends_well m → (∀ a, ends_well (k a)) → ends_well (bind m k).
Proof.
  intros Hm Hk w r w' Hrun.
  apply bind_inv in Hrun as [(a & w1 & Hm1 & Hk1)|(r0 & Hm1 & Hne & ->)].
  - by eapply Hk.
  - destruct (Hm _ _ _ Hm1) as [[a ->]|[[e ->]| ->]].
    + by destruct (Hne a).
    + right. left. by exists e.
    + by do 2 right.
Qed.

Lemma ends_well_prepare_run : ends_well prepare_run.
Proof.
  unfold prepare_run. apply ends_well_bind.
  - intros w r w'. unfold try_except. rewrite read_total_run.
    destruct (fault _) as [e|]; [|destruct (typed_total _)];
      intros [= <- <-]; eauto.
  - intros total. case_bool_decide.
    + intros w r w' [= <- <-]. by do 2 right.
    + apply ends_well_settles.
      apply settles_bind; [apply settles_succeeds, succeeds_print|].
      intros _. apply settles_bind.
      { apply settles_for_each. intros name. unfold fresh_clone_avd.
        apply settles_bind; [apply settles_external|].
        intros _. apply settles_succeeds, succeeds_print. }
      intros _. apply settles_bind; [|intros; apply settles_succeeds,
                                                 succeeds_ret].
      intros w r w' Hrun. rewrite list_adb_devices_run in Hrun.
      left. simplify_eq. eauto.
Qed.

End MainMore.




(** X12: [main] always comes to an end, with status 0 or 1: it returns,
    or it stops on an exception of the preparation, or it exits with 1
    on a bad answer. *)
Theorem main_exit_status (w : World) :
  exit_status (main w).1 = Some 0 ∨ exit_status (main w).1 = Some 1.
Proof.
  destruct (main w) as [r w'] eqn:Hmain. simpl.
  unfold main in Hmain.
  apply bind_inv in Hmain as [([names existing] & w1 & Hprep & Hrest)|
                              (r0 & Hprep & Hne & ->)].
  - simpl in Hrest.
    apply bind_inv in Hrest as [(plans & w2 & Hplans & Hrun)|
                                (r1 & Hplans & Hne & ->)].
    + destruct (succeeds_launch_and_wait plans w2) as ([] & w3 & Hok).
      rewrite Hok in Hrun. simplify_eq. by left.
    + unfold lift, plan_instances in Hplans.
      destruct (reserve_ports existing names []) as [ports| | |] eqn:Hres;
        simplify_eq/=.
      * by destruct (Hne (zip names ports)).
      * by right.
      * exfalso. clear -Hres. revert Hres. generalize (@nil Z).
        induction names as [|name names IH]; intros acc; simpl; [done|].
        unfold find_free_emulator_port.
        destruct (first_free _ _); simpl; [apply IH|done].
      * exfalso. clear -Hres. revert Hres. generalize (@nil Z).
        induction names as [|name names IH]; intros acc; simpl; [done|].
        unfold find_free_emulator_port.
        destruct (first_free _ _); simpl; [apply IH|done].
  - destruct (ends_well_prepare_run _ _ _ Hprep) as [[a ->]|[[e ->]| ->]].
    + by destruct (Hne a).
    + by right.
    + by right.
Qed.

Section LaunchMore.

Lemma start_workers_run plans : ∀ w,
  ∃ w' new,
    start_workers plans w = (Ok (procs_info_of (length (heap w)) plans), w') ∧
    log w' = log w ++ new ∧
    new.*2 = thread_starts (length (heap w)) plans ∧
    length (heap w') = (length (heap w) + length plans)%nat ∧
    clock w + 1000 * Z.of_nat (length plans) ≤ clock w'.
Proof.
  induction plans as [|[name port] plans IH]; intros w.
  - exists w, []. simpl. rewrite app_nil_r. repeat split; [lia|lia].
  - set (w1 := (time_sleep 1
                  (external_total
                     (EvThreadStart name port (length (heap w)))
                     (new_proc_holder w).2).2).2).
    destruct (IH w1) as (w' & new & Hrun & Hlog & Hnew & Hheap & Hclock).
    assert (length (heap w1) = S (length (heap w))) as Hh1.
    { subst w1. simpl. rewrite length_app. simpl. lia. }
    rewrite Hh1 in *.
    eexists w', (_ :: _ :: new). split; [|split; [|split; [|split]]].
    + cbn [start_workers].
      erewrite bind_Ok by reflexivity. erewrite bind_Ok by reflexivity.
      erewrite bind_Ok by reflexivity. erewrite bind_Ok by exact Hrun.
      reflexivity.
    + rewrite Hlog. subst w1. simpl. by rewrite <- !app_assoc.
    + simpl. do 2 f_equal. exact Hnew.
    + simpl. lia.
    + subst w1. simpl in *. lia.
Qed.

Lemma joins_run infos : ∀ w,
  ∃ w' new,
    for_each infos thread_join w = (Ok tt, w') ∧
    log w' = log w ++ new ∧
    new.*2 = (fun info : string * Z * nat => EvJoin info.1.1) <$> infos ∧
    clock w ≤ clock w'.
Proof.
  induction infos as [|[[name port] ref] infos IH]; intros w.
  - exists w, []. simpl. rewrite app_nil_r. repeat split; lia.
  - set (w1 := (thread_join (name, port, ref) w).2).
    destruct (IH w1) as (w' & new & Hrun & Hlog & Hnew & Hclock).
    eexists w', (_ :: new). split; [|split; [|split]].
    + cbn [for_each]. erewrite bind_Ok by reflexivity. exact Hrun.
    + rewrite Hlog. subst w1. simpl. by rewrite <- !app_assoc.
    + simpl. f_equal. exact Hnew.
    + subst w1. simpl in *. lia.
Qed.

Lemma procs_info_names ref plans :
  (fun info : string * Z * nat => EvJoin info.1.1) <$> procs_info_of ref plans
  = EvJoin <$> plans.*1.
Proof.
  revert ref. induction plans as [|[name port] plans IH]; intros ref; simpl;
    [done|]. f_equal. apply IH.
Qed.

End LaunchMore.

(** X13: what [main] does with the plans: it creates the semaphore,
    then starts one thread per plan, in the order of the plans, each
    with a fresh [proc_holder] of its own and followed by a sleep of one
    second; then it joins the threads in the same order and prints its
    closing lines.  It always returns, it takes at least one second per
    plan, and it sends no command to any emulator: they are left
    running. *)
Theorem workers_started_in_order (plans : list (string * Z)) (w : World) :
  let run := launch_and_wait plans w in
  run.1 = Ok tt ∧
  added w run
  = [EvSemaphore CONCURRENT_LIMIT]
    ++ thread_starts (length (heap w)) plans
    ++ (EvJoin <$> plans.*1)
    ++ [EvPrint "All instance threads finished.";
        EvPrint "Emulators were left running. To clean up later, use 'adb -s emulator-<port> emu kill' or delete clones.";
        EvPrint "Script complete."] ∧
  clock w + 1000 * Z.of_nat (length plans) ≤ clock run.2.
Proof.
  intros run. subst run.
  set (w0 := (external_total (EvSemaphore CONCURRENT_LIMIT) w).2).
  destruct (start_workers_run plans w0)
    as (w1 & new1 & Hstart & Hlog1 & Hnew1 & _ & Hclock1).
  destruct (joins_run (procs_info_of (length (heap w0)) plans) w1)
    as (w2 & new2 & Hjoin & Hlog2 & Hnew2 & Hclock2).
  assert (launch_and_wait plans w
          = (Ok tt,
             emit (EvPrint "Script complete.")
               (emit (EvPrint "Emulators were left running. To clean up later, use 'adb -s emulator-<port> emu kill' or delete clones.")
                  (emit (EvPrint "All instance threads finished.") w2))))
    as ->.
  { unfold launch_and_wait.
    erewrite bind_Ok by reflexivity.
    rewrite (bind_Ok _ _ _ _ _ Hstart), (bind_Ok _ _ _ _ _ Hjoin).
    reflexivity. }
  split; [done|]. split.
  - unfold added. simpl. rewrite Hlog2, Hlog1. subst w0. simpl.
    rewrite <- !app_assoc, drop_app_length, !fmap_app. simpl.
    rewrite Hnew1, Hnew2, procs_info_names. simpl. done.
  - subst w0. simpl in *. lia.
Qed.

(** X14: the termination pass over one instance, which the configured
    retention policy never runs.  It never raises.  An instance whose
    worker left no process, or whose process has exited, gets no
    command; a running one is sent [adb -s emulator-<port> emu kill],
    and only if that command cannot be run is the process terminated
    directly. *)
Theorem terminate_one_cases (name : string) (port : Z) (proc_holder : nat)
    (w : World) :
  let holder :=
    default {| ph_proc := None; ph_log := None |} (heap w !! proc_holder) in
  let polled := script w (calls w) in
  let killed := script w (S (calls w)) in
  let run := terminate_one (name, port, proc_holder) w in
  run.1 = Ok tt ∧
  added w run
  = match ph_proc holder with
    | None => []
    | Some proc =>
        EvPoll proc
          :: if running polled then
               EvRun ["adb"; "-s"; serial_of port; "emu"; "kill"] false
                 :: match fault killed with
                    | None => []
                    | Some _ => [EvTerminate proc]
                    end
             else []
    end.
Proof.
  intros holder polled killed run. subst run.
  unfold terminate_one, added, bind, read_holder, external_total,
    try_except, run_cmd, bind, external, ret.
  fold holder. destruct (ph_proc holder) as [proc|]; simpl.
  2:{ by rewrite drop_all. }
  fold polled. destruct (running polled); simpl.
  2:{ by rewrite drop_app_length. }
  fold killed. destruct (fault killed) as [e|]; simpl.
  - destruct (fault (script w (S (S (calls w))))); simpl;
      rewrite <- !app_assoc, drop_app_length; done.
  - rewrite <- !app_assoc, drop_app_length. done.
Qed.

(** ** The worker beyond the claims *)

Section Heap.


Lemma keeps_heap_raise {A} e : keeps_heap (@raise A e).
Proof. by intros w r w' [= <- <-]. Qed.

Lemma keeps_heap_out_of_fuel {A} : keeps_heap (@out_of_fuel A).
Proof. by intros w r w' [= <- <-]. Qed.

Lemma keeps_heap_time_time : keeps_heap time_time.
Proof. by intros w r w' [= <- <-]. Qed.






Lemma keeps_heap_try_except {A} (body : M A) handler :
  keeps_heap body → (∀ e, keeps_heap (handler e)) →
  keeps_heap (try_except body handler).
Proof.
  intros Hb Hh w r w'. unfold try_except.
  destruct (body w) as [[a|e|c|] w1] eqn:Hbody; intros Hrun;
    try (simplify_eq; by eapply Hb).
  rewrite (Hh _ _ _ _ Hrun). by eapply Hb.
Qed.

Lemma keeps_heap_popen cmd logfile : keeps_heap (popen cmd logfile).
Proof.
  intros w r w'. unfold popen, external.
  by destruct (fault _); intros [= <- <-].
Qed.






End Heap.


(** ** The threads beyond the claims *)

Section ThreadsMore.

Lemma weigh_app {A} (f : A -> nat) (l k : list A) :
  weigh f (l ++ k) = (weigh f l + weigh f k)%nat.
Proof. induction l as [|x l IH]; simpl; [done|]. rewrite IH. lia. Qed.

Lemma weigh_insert {A} (f : A -> nat) (l : list A) (i : nat) (x y : A) :
  l !! i = Some x →
  (weigh f (<[i := y]> l) + f x = weigh f l + f y)%nat.
Proof.
  revert i. induction l as [|z l IH]; intros [|i] Hi; simplify_eq/=.
  - lia.
  - specialize (IH i Hi). lia.
Qed.

Lemma count_pos {A} (f : A -> bool) (l : list A) :
  (0 < count f l)%nat → ∃ (i : nat) x, l !! i = Some x ∧ f x = true.
Proof.
  induction l as [|x l IH]; simpl; [lia|].
  destruct (f x) eqn:Hx.
  - intros _. by exists 0%nat, x.
  - intros (i & y & Hi & Hy)%IH. by exists (S i), y.
Qed.

Lemma count_none {A} (f : A -> bool) (l : list A) :
  (∀ (i : nat) x, l !! i = Some x → f x = false) → count f l = 0%nat.
Proof.
  induction l as [|x l IH]; intros Hall; simpl; [done|].
  rewrite (Hall 0%nat x) by done. apply IH.
  intros i y Hi. by apply (Hall (S i)).
Qed.

(** A step of a worker keeps its plan, is taken by a worker that has not
    finished, and brings it closer to the end. *)
Lemma worker_step_facts counter wk outcome counter' wk' :
  worker_step counter wk outcome = Some (counter', wk') →
  plan_of wk' = plan_of wk ∧
  is_finished wk = false ∧
  (pc_left (w_pc wk') < pc_left (w_pc wk))%nat.
Proof.
  unfold worker_step, plan_of, is_finished.
  destruct wk as [name port pc acquired]. simpl.
  destruct pc, outcome, acquired, counter; simpl; intros [= <- <-]; simpl;
    (split; [done|split; [done|lia]]).
Qed.

(** Every worker but one blocked in [acquire] with no permit left can
    make its next step. *)
Lemma worker_step_enabled counter wk :
  is_finished wk = false →
  w_pc wk ≠ AtAcquire ∨ counter ≠ 0%nat →
  worker_step counter wk None ≠ None.
Proof.
  unfold worker_step, is_finished.
  destruct wk as [name port pc acquired]. simpl.
  destruct pc, acquired, counter; simpl; try done; intros _ [?|?]; done.
Qed.

Lemma sys_step_left a s s' :
  sys_step a s = Some s' → (steps_left s' < steps_left s)%nat.
Proof.
  unfold steps_left. destruct a as [|i outcome]; simpl.
  - destruct (main_pc s) as [[|[name port] rest]|next|].
    + intros [= <-]. simpl. lia.
    + intros [= <-]. simpl. rewrite length_app, weigh_app. simpl. lia.
    + destruct (workers s !! next) as [wk|] eqn:Hnext.
      * destruct (is_finished wk); [|done]. intros [= <-]. simpl.
        apply lookup_lt_Some in Hnext. lia.
      * intros [= <-]. simpl. lia.
    + done.
  - destruct (workers s !! i) as [wk|] eqn:Hi; [|done].
    destruct (worker_step _ _ _) as [[counter wk']|] eqn:Hstep; [|done].
    intros [= <-]. simpl. rewrite length_insert.
    apply worker_step_facts in Hstep as (_ & _ & Hless).
    pose proof (weigh_insert (fun wk => pc_left (w_pc wk)) _ _ _ wk' Hi).
    lia.
Qed.

Lemma sys_step_main_inv plans a s s' :
  main_inv plans s → sys_step a s = Some s' → main_inv plans s'.
Proof.
  unfold main_inv. destruct a as [|i outcome]; simpl.
  - destruct (main_pc s) as [[|[name port] rest]|next|] eqn:Hpc.
    + intros Hplans [= <-]. simpl. rewrite app_nil_r in Hplans.
      split; [done|]. intros j wk Hj. lia.
    + intros Hplans [= <-]. simpl. rewrite fmap_app, <- app_assoc. done.
    + intros [Hplans Hjoined].
      destruct (workers s !! next) as [wk|] eqn:Hnext.
      * destruct (is_finished wk) eqn:Hfin; [|done]. intros [= <-]. simpl.
        split; [done|]. intros j wk' Hj Hwk'.
        destruct (decide (j = next)) as [->|]; [by simplify_eq|].
        apply (Hjoined j); [lia|done].
      * intros [= <-]. simpl. split; [done|]. intros j wk' Hwk'.
        apply (Hjoined j); [|done].
        apply lookup_lt_Some in Hwk'. apply lookup_ge_None in Hnext. lia.
    + done.
  - destruct (workers s !! i) as [wk|] eqn:Hi; [|done].
    destruct (worker_step _ _ _) as [[counter wk']|] eqn:Hstep; [|done].
    apply worker_step_facts in Hstep as (Hplan & Hrunning & _).
    assert (plan_of <$> <[i := wk']> (workers s) = plan_of <$> workers s)
      as Hsame.
    { rewrite list_fmap_insert, Hplan. apply list_insert_id.
      by rewrite list_lookup_fmap, Hi. }
    intros Hinv [= <-]. simpl. rewrite Hsame.
    destruct (main_pc s) as [rest|next|]; [done| |].
    + destruct Hinv as [Hplans Hjoined]. split; [done|].
      intros j wk0 Hj Hwk0.
      destruct (decide (i = j)) as [->|Hne].
      * rewrite (Hjoined j wk) in Hrunning by done. done.
      * rewrite list_lookup_insert_ne in Hwk0 by done. by eapply Hjoined.
    + destruct Hinv as [Hplans Hjoined]. split; [done|].
      intros j wk0 Hwk0.
      destruct (decide (i = j)) as [->|Hne].
      * rewrite (Hjoined j wk) in Hrunning by done. done.
      * rewrite list_lookup_insert_ne in Hwk0 by done. by eapply Hjoined.
Qed.

(** What holds in every state a schedule leads to. *)
Lemma run_schedule_invariants limit plans schedule : ∀ s s',
  Forall tidy (workers s) →
  (permits s + count holds_permit (workers s) = limit)%nat →
  main_inv plans s →
  run_schedule schedule s = Some s' →
  Forall tidy (workers s') ∧
  (permits s' + count holds_permit (workers s') = limit)%nat ∧
  main_inv plans s' ∧
  (length schedule + steps_left s' ≤ steps_left s)%nat.
Proof.
  induction schedule as [|a rest IH]; intros s s' Htidy Hbal Hmain; simpl.
  - intros [= <-]. repeat split; [done|done|done|lia].
  - destruct (sys_step a s) as [s1|] eqn:Hstep; [|done].
    destruct (sys_step_balance _ _ _ Htidy Hstep) as [Htidy1 Hbal1].
    pose proof (sys_step_main_inv _ _ _ _ Hmain Hstep) as Hmain1.
    pose proof (sys_step_left _ _ _ Hstep) as Hleft.
    intros Hrun.
    destruct (IH _ _ Htidy1 ltac:(lia) Hmain1 Hrun) as (? & ? & ? & ?).
    repeat split; [done|done|done|lia].
Qed.

Lemma initial_invariants limit plans :
  Forall tidy (workers (initial limit plans)) ∧
  (permits (initial limit plans)
   + count holds_permit (workers (initial limit plans)) = limit)%nat ∧
  main_inv plans (initial limit plans).
Proof. repeat split; [by constructor|simpl; lia]. Qed.

End ThreadsMore.

(** X17: [main] reaches its end only after every worker has.  In any
    interleaving, once [main] is past its joins, there is exactly one
    worker per plan, in the order of the plans, every one of them has
    finished, and all the permits are back in the pool. *)
Theorem all_joined_at_end (limit : nat) (plans : list (string * Z))
    (schedule : list Action) (s : System) :
  run_schedule schedule (initial limit plans) = Some s →
  main_pc s = Done →
  plan_of <$> workers s = plans ∧
  Forall (fun wk => w_pc wk = Finished) (workers s) ∧
  permits s = limit.
Proof.
  intros Hrun Hdone.
  destruct (initial_invariants limit plans) as (Htidy0 & Hbal0 & Hmain0).
  destruct (run_schedule_invariants limit plans schedule _ _
              Htidy0 Hbal0 Hmain0 Hrun) as (_ & Hbal & Hmain & _).
  unfold main_inv in Hmain. rewrite Hdone in Hmain.
  destruct Hmain as [Hplans Hfinished]. split; [done|].
  split.
  - apply Forall_lookup. intros j wk Hj.
    specialize (Hfinished j wk Hj). unfold is_finished in Hfinished.
    by destruct (w_pc wk).
  - rewrite count_none in Hbal; [lia|].
    intros j wk Hj. unfold holds_permit.
    rewrite (Hfinished j wk Hj). by destruct (w_acquired wk).
Qed.

Lemma all_joined_at_end_witness :
  ∃ s,
    run_schedule mixed_fortunes
      (initial 2 [("MyAVD3_copy1", 5554); ("MyAVD3_copy2", 5556);
                  ("MyAVD3_copy3", 5558)]) = Some s ∧
    plan_of <$> workers s
    = [("MyAVD3_copy1", 5554); ("MyAVD3_copy2", 5556);
       ("MyAVD3_copy3", 5558)] ∧
    Forall (fun wk => w_pc wk = Finished) (workers s) ∧
    permits s = 2%nat.
Proof.
  eexists. split; [vm_compute; reflexivity|].
  apply (all_joined_at_end 2
           [("MyAVD3_copy1", 5554); ("MyAVD3_copy2", 5556);
            ("MyAVD3_copy3", 5558)] mixed_fortunes);
    reflexivity.
Defined.

(** X18: no interleaving goes on for ever: with [M] plans, [main] and
    its workers make at most [9 M + 2] steps between them (a worker at
    most seven: acquire, four stages, the except clause, the finally
    clause). *)
Theorem runs_are_finite (limit : nat) (plans : list (string * Z))
    (schedule : list Action) (s : System) :
  run_schedule schedule (initial limit plans) = Some s →
  (length schedule ≤ 9 * length plans + 2)%nat.
Proof.
  intros Hrun.
  destruct (initial_invariants limit plans) as (Htidy0 & Hbal0 & Hmain0).
  destruct (run_schedule_invariants limit plans schedule _ _
              Htidy0 Hbal0 Hmain0 Hrun) as (_ & _ & _ & Hleft).
  unfold steps_left at 2 in Hleft. simpl in Hleft. lia.
Qed.

Lemma runs_are_finite_witness :
  (length mixed_fortunes ≤ 9 * 3 + 2)%nat.
Proof.
  apply (runs_are_finite 2
           [("MyAVD3_copy1", 5554); ("MyAVD3_copy2", 5556);
            ("MyAVD3_copy3", 5558)] mixed_fortunes
           {| permits := 2; main_pc := Done;
              workers :=
                [{| w_name := "MyAVD3_copy1"; w_port := 5554;
                    w_pc := Finished; w_acquired := true |};
                 {| w_name := "MyAVD3_copy2"; w_port := 5556;
                    w_pc := Finished; w_acquired := true |};
                 {| w_name := "MyAVD3_copy3"; w_port := 5558;
                    w_pc := Finished; w_acquired := true |}] |}).
  vm_compute. reflexivity.
Defined.

(** X19: with at least one permit the threads never block each other
    for good: in any state an interleaving leads to, as long as [main]
    is not done, [main] or some worker can make its next step without
    anything having to raise.  (A worker blocked in [acquire] means all
    permits are held, and a holder can always move on.) *)
Theorem never_stuck (limit : nat) (plans : list (string * Z))
    (schedule : list Action) (s : System) :
  (1 ≤ limit)%nat →
  run_schedule schedule (initial limit plans) = Some s →
  main_pc s ≠ Done →
  ∃ a s', sys_step a s = Some s' ∧
          (a = MainMoves ∨ ∃ i, a = WorkerMoves i None).
Proof.
  intros Hlimit Hrun Hbusy.
  destruct (initial_invariants limit plans) as (Htidy0 & Hbal0 & Hmain0).
  destruct (run_schedule_invariants limit plans schedule _ _
              Htidy0 Hbal0 Hmain0 Hrun) as (Htidy & Hbal & _ & _).
  assert (∀ i wk, workers s !! i = Some wk → is_finished wk = false →
            w_pc wk ≠ AtAcquire ∨ permits s ≠ 0%nat →
            ∃ a s', sys_step a s = Some s' ∧
                    (a = MainMoves ∨ ∃ i, a = WorkerMoves i None))
    as Hworker.
  { intros i wk Hi Hfin Hfree.
    pose proof (worker_step_enabled (permits s) wk Hfin Hfree) as Hstep.
    destruct (worker_step (permits s) wk None) as [[counter wk']|] eqn:Hws;
      [|done].
    eexists (WorkerMoves i None), _. simpl. rewrite Hi, Hws.
    split; [done|]. right. by exists i. }
  destruct (main_pc s) as [[|[name port] rest]|next|] eqn:Hpc; [| | |done].
  - eexists MainMoves, _. simpl. rewrite Hpc. split; [done|by left].
  - eexists MainMoves, _. simpl. rewrite Hpc. split; [done|by left].
  - destruct (workers s !! next) as [wk|] eqn:Hnext.
    2:{ eexists MainMoves, _. simpl. rewrite Hpc, Hnext.
        split; [done|by left]. }
    destruct (is_finished wk) eqn:Hfin.
    { eexists MainMoves, _. simpl. rewrite Hpc, Hnext, Hfin.
      split; [done|by left]. }
    destruct (permits s) as [|spare] eqn:Hnone.
    2:{ apply (Hworker next wk Hnext Hfin). right. lia. }
    destruct (count_pos holds_permit (workers s) ltac:(lia))
      as (i & holder & Hi & Hholds).
    rewrite <- Hnone in Hworker.
    unfold holds_permit in Hholds.
    apply andb_prop in Hholds as [Hacq Hrunning].
    apply (Hworker i holder Hi).
    + by destruct (is_finished holder).
    + left. intros Hat.
      pose proof (Forall_lookup_1 _ _ _ _ Htidy Hi Hat). congruence.
Qed.

(** Three plans under two permits, the third worker blocked. *)
Lemma never_stuck_witness :
  ∃ s,
    run_schedule three_under_two
      (initial 2 [("MyAVD3_copy1", 5554); ("MyAVD3_copy2", 5556);
                  ("MyAVD3_copy3", 5558)]) = Some s ∧
    ∃ a s', sys_step a s = Some s' ∧
            (a = MainMoves ∨ ∃ i, a = WorkerMoves i None).
Proof.
  eexists. split; [vm_compute; reflexivity|].
  apply (never_stuck 2
           [("MyAVD3_copy1", 5554); ("MyAVD3_copy2", 5556);
            ("MyAVD3_copy3", 5558)] three_under_two).
  - lia.
  - reflexivity.
  - discriminate.
Defined.

(** ** The enumeration beyond the claims *)

Section EnumerationMore.

Lemma string_app_cons (c : ascii) (s t : string) :
  String c s +:+ t = String c (s +:+ t).
Proof. reflexivity. Qed.

Lemma string_app_nil_r (s : string) : s +:+ "" = s.
Proof.
  induction s as [|c s IH]; [done|]. by rewrite string_app_cons, IH.
Qed.

Lemma string_app_assoc (a b c : string) : (a +:+ b) +:+ c = a +:+ b +:+ c.
Proof.
  induction a as [|x a IH]; [done|]. by rewrite !string_app_cons, IH.
Qed.

Lemma rev_app_app (a b c : string) :
  String.rev_app (a +:+ b) c = String.rev_app b (String.rev_app a c).
Proof.
  revert c. induction a as [|x a IH]; intros c; [done|].
  rewrite string_app_cons. simpl. apply IH.
Qed.

Lemma rev_app_rev_app (s t u : string) :
  String.rev_app (String.rev_app s t) u = String.rev_app t (s +:+ u).
Proof.
  revert t. induction s as [|x s IH]; intros t; simpl; [done|].
  by rewrite IH.
Qed.

Lemma rev_rev (s : string) : String.rev (String.rev s) = s.
Proof.
  unfold String.rev. rewrite rev_app_rev_app. exact (string_app_nil_r s).
Qed.

Lemma rev_app_empty (s t : string) :
  String.rev_app s t = "" → s = "" ∧ t = "".
Proof.
  revert t. induction s as [|x s IH]; intros t; simpl; [done|].
  intros [_ [=]]%IH.
Qed.

Lemma rev_app_tail (s t : string) :
  String.rev_app s t = String.rev s +:+ t.
Proof.
  unfold String.rev. revert t.
  induction s as [|x s IH]; intros t; simpl; [done|].
  rewrite IH, (IH (String x "")), string_app_assoc. done.
Qed.

Lemma no_space_rev_app (s t : string) :
  no_space (String.rev_app s t) = no_space s && no_space t.
Proof.
  revert t. induction s as [|x s IH]; intros t; simpl; [done|].
  rewrite IH. simpl. by destruct (Py.isspace x), (no_space s).
Qed.

Lemma no_break_rev_app (s t : string) :
  no_break (String.rev_app s t) = no_break s && no_break t.
Proof.
  revert t. induction s as [|x s IH]; intros t; simpl; [done|].
  rewrite IH. simpl. by destruct (Py.islinebreak x), (no_break s).
Qed.

Lemma no_break_lstrip (s : string) :
  no_break s = true → no_break (Py.lstrip s) = true.
Proof.
  induction s as [|x s IH]; simpl; [done|].
  intros [Hx Hs]%andb_prop. destruct (Py.isspace x); [auto|].
  simpl. by rewrite Hx, Hs.
Qed.

Lemma no_break_strip (s : string) :
  no_break s = true → no_break (Py.strip s) = true.
Proof.
  intros Hs. unfold Py.strip, String.rev.
  rewrite no_break_rev_app, andb_true_r. apply no_break_lstrip.
  rewrite no_break_rev_app, andb_true_r. by apply no_break_lstrip.
Qed.

Lemma no_space_no_break (s : string) : no_space s = true → no_break s = true.
Proof.
  induction s as [|x s IH]; simpl; [done|].
  intros [Hx Hs]%andb_prop. rewrite (IH Hs), andb_true_r.
  revert Hx. unfold Py.isspace, Py.islinebreak.
  generalize (nat_of_ascii x). intros n.
  rewrite !negb_true_iff, !orb_false_iff, !andb_false_iff.
  rewrite !Nat.leb_gt, !Nat.eqb_neq. lia.
Qed.

Lemma flush_word (cur : string) :
  no_space cur = true → Forall word (Py.flush cur).
Proof.
  intros Hcur. destruct cur as [|c cur]; simpl; [constructor|].
  constructor; [|constructor]. split.
  - unfold String.rev. simpl. by intros [_ [=]]%rev_app_empty.
  - unfold String.rev. by rewrite no_space_rev_app, andb_true_r.
Qed.

Lemma split_go_words (cur s : string) :
  no_space cur = true → Forall word (Py.split_go cur s).
Proof.
  revert cur. induction s as [|c s IH]; intros cur Hcur; simpl.
  - by apply flush_word.
  - destruct (Py.isspace c) eqn:Hc.
    + apply Forall_app. split; [by apply flush_word|by apply IH].
    + apply IH. simpl. by rewrite Hc.
Qed.

Lemma split_go_field (p l rest : string) :
  no_space l = true →
  Py.split_go (String.rev p) (l +:+ rest)
  = Py.split_go (String.rev (p +:+ l)) rest.
Proof.
  revert p. induction l as [|c l IH]; intros p; simpl.
  - by rewrite string_app_nil_r.
  - intros [Hc Hl]%andb_prop. apply negb_true_iff in Hc. rewrite Hc.
    replace (String c (String.rev p)) with (String.rev (p +:+ String c "")).
    + rewrite (IH _ Hl), string_app_assoc. done.
    + unfold String.rev. by rewrite rev_app_app.
Qed.

Lemma flush_rev (p : string) : p ≠ "" → Py.flush (String.rev p) = [p].
Proof.
  intros Hp. unfold Py.flush.
  destruct (String.rev p) as [|c r] eqn:Hrev.
  - by apply rev_app_empty in Hrev as [? _].
  - by rewrite <- Hrev, rev_rev.
Qed.

Lemma split_device_line (d : string * string) :
  word d.1 → word d.2 → Py.split (device_line d) = [d.1; d.2].
Proof.
  intros [Hne1 Hw1] [Hne2 Hw2]. unfold Py.split, device_line.
  change (Py.split_go "" ?s) with (Py.split_go (String.rev "") s).
  rewrite (split_go_field _ _ _ Hw1).
  change ("" +:+ d.1) with d.1. rewrite string_app_cons.
  cbn [Py.split_go].
  change (Py.isspace "009") with true. cbv iota.
  rewrite (flush_rev _ Hne1). cbn [app]. f_equal.
  change ("" +:+ d.2) with d.2.
  change (Py.split_go "" ?s) with (Py.split_go (String.rev "") s).
  rewrite <- (string_app_nil_r d.2) at 1.
  rewrite (split_go_field _ _ _ Hw2).
  change ("" +:+ d.2) with d.2.
  cbn [Py.split_go].
  by apply flush_rev.
Qed.

Lemma splitlines_go_line (p l rest : string) :
  no_break l = true →
  Py.splitlines_go (String.rev p) (l +:+ rest)
  = Py.splitlines_go (String.rev (p +:+ l)) rest.
Proof.
  revert p. induction l as [|c l IH]; intros p; simpl.
  - by rewrite string_app_nil_r.
  - intros [Hc Hl]%andb_prop. apply negb_true_iff in Hc. rewrite Hc.
    replace (String c (String.rev p)) with (String.rev (p +:+ String c "")).
    + rewrite (IH _ Hl), string_app_assoc. done.
    + unfold String.rev. by rewrite rev_app_app.
Qed.

Lemma splitlines_one_line (s : string) :
  no_break s = true → (length (Py.splitlines s) ≤ 1)%nat.
Proof.
  intros Hs. unfold Py.splitlines.
  change (Py.splitlines_go "" s) with (Py.splitlines_go (String.rev "") s).
  rewrite <- (string_app_nil_r s).
  rewrite (splitlines_go_line _ _ _ Hs).
  change ("" +:+ s) with s. cbn [Py.splitlines_go].
  unfold Py.flush. destruct (String.rev s); simpl; lia.
Qed.

Lemma splitlines_join (x : string) (rest : list string) :
  Forall (fun l => l ≠ "" ∧ no_break l = true) (x :: rest) →
  Py.splitlines (Py.join (String "010" "") (x :: rest)) = x :: rest.
Proof.
  unfold Py.splitlines. revert x.
  induction rest as [|y rest IH]; intros x Hlines.
  - apply Forall_cons in Hlines as [[Hne Hx] _]. simpl.
    change (Py.splitlines_go "" x) with (Py.splitlines_go (String.rev "") x).
    rewrite <- (string_app_nil_r x) at 1.
    rewrite (splitlines_go_line _ _ _ Hx).
    change ("" +:+ x) with x. cbn [Py.splitlines_go]. by apply flush_rev.
  - apply Forall_cons in Hlines as [[Hne Hx] Hrest].
    change (Py.join (String "010" "") (x :: y :: rest))
      with (x +:+ String "010" (Py.join (String "010" "") (y :: rest))).
    change (Py.splitlines_go "" ?s) with (Py.splitlines_go (String.rev "") s)
      at 1.
    rewrite (splitlines_go_line _ _ _ Hx).
    change ("" +:+ x) with x. cbn [Py.splitlines_go].
    change (Py.islinebreak "010") with true. cbv iota.
    rewrite rev_rev. f_equal. by apply IH.
Qed.

Lemma all_space_rev_app (s t : string) :
  all_space (String.rev_app s t) = all_space s && all_space t.
Proof.
  revert t. induction s as [|x s IH]; intros t; simpl; [done|].
  rewrite IH. simpl. by destruct (Py.isspace x), (all_space s).
Qed.

Lemma lstrip_app_space (t s : string) :
  all_space t = true → Py.lstrip (t +:+ s) = Py.lstrip s.
Proof.
  induction t as [|c t IH]; [done|].
  intros [Hc Ht]%andb_prop. rewrite string_app_cons.
  cbn [Py.lstrip]. rewrite Hc. auto.
Qed.

Lemma no_break_app (a b : string) :
  no_break (a +:+ b) = no_break a && no_break b.
Proof.
  induction a as [|x a IH]; [done|]. rewrite string_app_cons. simpl.
  rewrite IH. by destruct (Py.islinebreak x).
Qed.

Lemma begins_app (a b : string) : begins a → begins (a +:+ b).
Proof.
  intros (c & r & -> & Hc). exists c, (r +:+ b). by rewrite string_app_cons.
Qed.

Lemma ends_app (a b : string) : ends b → ends (a +:+ b).
Proof.
  unfold ends. intros Hb. unfold String.rev at 1.
  rewrite rev_app_app, rev_app_tail. by apply begins_app.
Qed.

Lemma word_ends (s : string) : word s → ends s.
Proof.
  intros [Hne Hs]. unfold ends.
  assert (no_space (String.rev s) = true) as Hrev.
  { unfold String.rev. by rewrite no_space_rev_app, andb_true_r. }
  destruct (String.rev s) as [|c r] eqn:Hr.
  - by apply rev_app_empty in Hr as [? _].
  - simpl in Hrev. apply andb_prop in Hrev as [Hc _].
    exists c, r. by rewrite <- negb_true_iff.
Qed.

Lemma begins_join sep x rest : begins x → begins (Py.join sep (x :: rest)).
Proof.
  intros Hx. destruct rest as [|y rest]; [done|].
  change (begins (x +:+ sep +:+ Py.join sep (y :: rest))).
  by apply begins_app.
Qed.

Lemma ends_join sep x rest :
  Forall ends (x :: rest) → ends (Py.join sep (x :: rest)).
Proof.
  revert x. induction rest as [|y rest IH]; intros x Hall.
  - by apply Forall_cons in Hall as [? _].
  - apply Forall_cons in Hall as [_ Hrest].
    change (ends (x +:+ sep +:+ Py.join sep (y :: rest))).
    do 2 apply ends_app. by apply IH.
Qed.

Lemma strip_trailing (body tail : string) :
  begins body → ends body → all_space tail = true →
  Py.strip (body +:+ tail) = body.
Proof.
  intros Hbegin (c' & r' & Hrev & Hc') Htail. unfold Py.strip.
  assert (Py.lstrip (body +:+ tail) = body +:+ tail) as ->.
  { destruct Hbegin as (c & r & -> & Hc).
    rewrite string_app_cons. simpl. by rewrite Hc. }
  unfold String.rev at 2. rewrite rev_app_app, rev_app_tail.
  rewrite lstrip_app_space
    by by (unfold String.rev; rewrite all_space_rev_app, Htail).
  fold (String.rev body). rewrite Hrev. simpl. rewrite Hc'.
  by rewrite <- Hrev, rev_rev.
Qed.

Lemma adb_devices_output_lines (devices : list (string * string)) :
  adb_devices_output devices
  = Py.join (String "010" "")
      ("List of devices attached" :: (device_line <$> devices))
    +:+ String "010" (String "010" "").
Proof.
  unfold adb_devices_output. generalize "List of devices attached".
  induction devices as [|d devices IH]; intros x; [done|].
  cbn [foldr fmap list_fmap].
  change (Py.join (String "010" "") (x :: device_line d :: ?rest))
    with (x +:+ String "010" "" +:+
          Py.join (String "010" "") (device_line d :: rest)).
  rewrite !string_app_assoc. do 2 f_equal.
  rewrite <- IH. unfold device_line. by rewrite !string_app_assoc.
Qed.

Lemma device_line_ok (d : string * string) :
  word d.1 → word d.2 →
  (device_line d ≠ "" ∧ no_break (device_line d) = true) ∧
  ends (device_line d).
Proof.
  intros [Hne1 Hw1] [Hne2 Hw2]. unfold device_line. split; [split|].
  - destruct d.1; [done|]. by rewrite string_app_cons.
  - rewrite !no_break_app, (no_space_no_break _ Hw1),
      (no_space_no_break _ Hw2). done.
  - do 2 apply ends_app. by apply word_ends.
Qed.

Lemma listing_lines (devices : list (string * string)) :
  Forall (fun d => word d.1 ∧ word d.2) devices →
  drop 1 (Py.splitlines (Py.strip (adb_devices_output devices)))
  = device_line <$> devices.
Proof.
  intros Hwords. rewrite adb_devices_output_lines.
  assert (Forall (fun l => (l ≠ "" ∧ no_break l = true) ∧ ends l)
            ("List of devices attached" :: (device_line <$> devices)))
    as Hlines.
  { constructor.
    - split; [by split|]. by eexists _, _.
    - apply Forall_fmap. eapply Forall_impl; [exact Hwords|].
      intros d [? ?]. by apply device_line_ok. }
  apply Forall_and in Hlines as [Hplain Hends].
  rewrite strip_trailing.
  - by rewrite splitlines_join.
  - apply begins_join. by eexists _, _.
  - by apply ends_join.
  - done.
Qed.

End EnumerationMore.

(** X20: the enumeration reads a listing in the format of [adb
    devices] as it is meant: for a header line followed by one line
    "serial TAB state" per device and an empty line, serials and states
    being non-empty and free of whitespace, the result holds exactly the
    serials whose state is "device". *)
Theorem enumeration_reads_listing (devices : list (string * string))
    (serial : string) :
  Forall (fun d => word d.1 ∧ word d.2) devices →
  serial ∈ devices_of_output (adb_devices_output devices) ↔
  (serial, "device") ∈ devices.
Proof.
  intros Hwords. unfold devices_of_output. cbv zeta.
  rewrite (listing_lines _ Hwords), foldl_add_device_elem. split.
  - intros [?%elem_of_empty|(line & state & rest & Hline & Hsplit & ->)];
      [done|].
    apply list_elem_of_fmap in Hline as (d & -> & Hd).
    pose proof (proj1 (Forall_forall _ _) Hwords d Hd) as [Hw1 Hw2].
    rewrite (split_device_line d Hw1 Hw2) in Hsplit.
    injection Hsplit as <- <- <-. by destruct d.
  - intros Hd. right. exists (device_line (serial, "device")), "device", [].
    split; [by apply (list_elem_of_fmap_2 device_line)|]. split; [|done].
    pose proof (proj1 (Forall_forall _ _) Hwords _ Hd) as [Hw1 Hw2].
    by apply split_device_line.
Qed.

Lemma enumeration_reads_listing_witness :
  "emulator-5556" ∈ devices_of_output
    (adb_devices_output
       [("emulator-5554", "offline"); ("emulator-5556", "device")]).
Proof.
  apply (enumeration_reads_listing
           [("emulator-5554", "offline"); ("emulator-5556", "device")]).
  - repeat constructor; done.
  - apply list_elem_of_lookup. by exists 1%nat.
Defined.

(** X21: whatever [adb devices] answers, every serial the enumeration
    returns is a non-empty string without whitespace; and an answer
    that consists of one line only, whatever it says, gives the empty
    set: the first line is never read as a device. *)
Theorem enumeration_fields (out : string) :
  (∀ serial, serial ∈ devices_of_output out → word serial) ∧
  (no_break out = true → devices_of_output out = ∅).
Proof.
  unfold devices_of_output. cbv zeta. split.
  - intros serial.
    rewrite foldl_add_device_elem.
    intros [?%elem_of_empty|(line & state & rest & _ & Hsplit & _)]; [done|].
    pose proof (split_go_words "" line eq_refl) as Hall.
    fold (Py.split line) in Hall. rewrite Hsplit in Hall.
    by apply Forall_cons in Hall as [? _].
  - intros Hout.
    pose proof (splitlines_one_line _ (no_break_strip _ Hout)) as Hone.
    destruct (Py.splitlines (Py.strip out)) as [|first [|second rest]];
      [done|done|simpl in Hone; lia].
Qed.

(** ** The text rewriting of the clone *)

Section CloneText.

Lemma keys_exclusive (l : string) :
  startswith l "avd.id=" = true → startswith l "avd.name=" = false.
Proof.
  unfold startswith.
  destruct l as [|a [|b [|c [|d [|e l]]]]]; try done;
    cbn [Py.strip_prefix]; repeat case_bool_decide; try done;
    by simplify_eq.
Qed.

Lemma config_loop (new_name : string) (cfg_lines : list string) :
  ∀ st,
    foldl (config_step new_name) st cfg_lines
    = {| written := written st ++ (config_write new_name <$> cfg_lines);
         found_id :=
           found_id st
           || existsb (fun l => startswith l "avd.id=") cfg_lines;
         found_name :=
           found_name st
           || existsb (fun l => startswith l "avd.name=") cfg_lines |}.
Proof.
  induction cfg_lines as [|line cfg_lines IH]; intros st.
  - simpl. rewrite app_nil_r, !orb_false_r. by destruct st.
  - cbn [foldl]. rewrite IH. unfold config_step, config_write.
    cbn [existsb fmap list_fmap].
    destruct (startswith line "avd.id=") eqn:Hid.
    + cbn [written found_id found_name].
      rewrite <- app_assoc, orb_true_r. simpl.
      by rewrite (keys_exclusive _ Hid).
    + cbn [written found_id found_name]. rewrite orb_false_l.
      destruct (startswith line "avd.name=") eqn:Hname;
        cbn [written found_id found_name];
        rewrite <- app_assoc; simpl; by rewrite ?orb_true_r.
Qed.

Lemma replace_go_keeps_start (fuel : nat) (old new p : string) (c : ascii)
    (rest : string) :
  new = String c rest → has_char c p = false →
  ∀ s, Py.strip_prefix p s = None →
       Py.strip_prefix p (Py.replace_go fuel old new s) = None.
Proof.
  intros -> . revert fuel.
  induction p as [|a p IH]; intros fuel Hc s Hs; [done|].
  simpl in Hc. apply orb_false_elim in Hc as [Hac Hp].
  apply bool_decide_eq_false in Hac.
  destruct fuel as [|fuel]; [done|]. cbn [Py.replace_go].
  destruct (Py.strip_prefix old s) as [tail|].
  - rewrite string_app_cons. simpl. by rewrite bool_decide_false.
  - destruct s as [|b s]; [done|]. simpl in *.
    case_bool_decide; [|done]. by apply IH.
Qed.

Lemma replace_keeps_start (new_name p line : string) :
  startswith new_name BASE_AVD = true → has_char "M" p = false →
  startswith line p = false →
  startswith (Py.replace line BASE_AVD new_name) p = false.
Proof.
  unfold startswith at 1. intros Hnew Hp Hline.
  destruct new_name as [|c rest]; [done|].
  simpl in Hnew. case_bool_decide as Hc; [subst c|done].
  unfold startswith in *. unfold Py.replace.
  rewrite (replace_go_keeps_start _ _ _ p "M" rest eq_refl Hp); [done|].
  by destruct (Py.strip_prefix p line).
Qed.

End CloneText.

(** X22: the loop over the lines of [config.ini] writes one string per
    line, in order, then the identity entry if no line began with
    [avd.id=], then the name entry if none began with [avd.name=]; the
    appended identity entry alone starts with a line break.  So the
    clone's configuration names the clone whatever the base held: an
    entry for each key is written at least once. *)
Theorem config_rewritten (new_name : string) (cfg_lines : list string) :
  let has pre := existsb (fun l => startswith l pre) cfg_lines in
  let id_entry := "avd.id=" +:+ new_name +:+ newline in
  let name_entry := "avd.name=" +:+ new_name +:+ newline in
  config_writes new_name cfg_lines
  = (config_write new_name <$> cfg_lines)
    ++ (if has "avd.id=" then [] else [newline +:+ id_entry])
    ++ (if has "avd.name=" then [] else [name_entry]) ∧
  (id_entry ∈ config_writes new_name cfg_lines ∨
   newline +:+ id_entry ∈ config_writes new_name cfg_lines) ∧
  name_entry ∈ config_writes new_name cfg_lines.
Proof.
  intros has id_entry name_entry.
  assert (config_writes new_name cfg_lines
          = (config_write new_name <$> cfg_lines)
            ++ (if has "avd.id=" then [] else [newline +:+ id_entry])
            ++ (if has "avd.name=" then [] else [name_entry])) as ->.
  { unfold config_writes. cbv zeta. rewrite config_loop. done. }
  split; [done|].
  assert (∀ pre entry,
            (∀ l, startswith l pre = true → config_write new_name l = entry) →
            has pre = true → entry ∈ config_write new_name <$> cfg_lines)
    as Hfound.
  { intros pre entry Hentry Hhas. unfold has in Hhas.
    apply existsb_exists in Hhas as (l & Hl & Hpre).
    rewrite <- (Hentry l Hpre). apply list_elem_of_fmap_2.
    by apply list_elem_of_In. }
  split.
  - destruct (has "avd.id=") eqn:Hid.
    + left. apply elem_of_app. left. apply (Hfound "avd.id="); [|done].
      intros l Hl. unfold config_write. by rewrite Hl.
    + right. apply elem_of_app. right. apply elem_of_app. left.
      by apply list_elem_of_here.
  - destruct (has "avd.name=") eqn:Hname.
    + apply elem_of_app. left. apply (Hfound "avd.name="); [|done].
      intros l Hl. unfold config_write. rewrite Hl.
      destruct (startswith l "avd.id=") eqn:Hid; [|done].
      by rewrite (keys_exclusive _ Hid) in Hl.
    + apply elem_of_app. right. apply elem_of_app. right.
      by apply list_elem_of_here.
Qed.

(** X23: no entry of the base survives under its key.  For a clone
    name that begins with the name of the base, as every name [main]
    makes does, a string written to the [.ini] file that begins with
    [path=] is the path of the clone, and a string written to
    [config.ini] that begins with [avd.id=] or [avd.name=] is the entry
    of the clone: replacing the base name in another line never makes
    it begin with one of the keys. *)
Theorem clone_entries_fresh (new_avd_dir new_name : string)
    (lines : list string) (chunk : string) :
  startswith new_name BASE_AVD = true →
  (chunk ∈ ini_writes new_avd_dir new_name lines →
   startswith chunk "path=" = true →
   chunk = "path=" +:+ new_avd_dir +:+ newline) ∧
  (chunk ∈ config_writes new_name lines →
   (startswith chunk "avd.id=" = true →
    chunk = "avd.id=" +:+ new_name +:+ newline) ∧
   (startswith chunk "avd.name=" = true →
    chunk = "avd.name=" +:+ new_name +:+ newline)).
Proof.
  intros Hnew. split.
  - unfold ini_writes. intros (line & -> & _)%list_elem_of_fmap.
    unfold ini_write. destruct (startswith line "path=") eqn:Hline; [done|].
    by rewrite (replace_keeps_start _ "path=" _ Hnew eq_refl Hline).
  - unfold config_writes. cbv zeta. rewrite config_loop.
    cbn [written found_id found_name app orb].
    rewrite !elem_of_app.
    intros [(line & -> & _)%list_elem_of_fmap|[Hid|Hname]].
    + unfold config_write.
      destruct (startswith line "avd.id=") eqn:Hid.
      { split; [done|]. unfold startswith. simpl. done. }
      destruct (startswith line "avd.name=") eqn:Hname.
      { split; [|done]. unfold startswith. simpl. done. }
      by rewrite (replace_keeps_start _ "avd.id=" _ Hnew eq_refl Hid),
        (replace_keeps_start _ "avd.name=" _ Hnew eq_refl Hname).
    + destruct (existsb _ lines) in Hid; [by apply elem_of_nil in Hid|].
      apply list_elem_of_singleton in Hid as ->. by split.
    + destruct (existsb _ lines) in Hname; [by apply elem_of_nil in Hname|].
      apply list_elem_of_singleton in Hname as ->. split; [|done].
      unfold startswith. simpl. done.
Qed.

Lemma clone_entries_fresh_witness :
  let lines :=
    ["avd.ini.encoding=UTF-8" +:+ newline;
     "path=/home/user/.android/avd/MyAVD3.avd" +:+ newline;
     "path.rel=avd/MyAVD3.avd" +:+ newline] in
  let chunk := "path=/home/user/.android/avd/MyAVD3_copy1.avd" +:+ newline in
  chunk ∈ ini_writes "/home/user/.android/avd/MyAVD3_copy1.avd"
            "MyAVD3_copy1" lines ∧
  ini_writes "/home/user/.android/avd/MyAVD3_copy1.avd" "MyAVD3_copy1" lines
  = ["avd.ini.encoding=UTF-8" +:+ newline;
     chunk;
     "path.rel=avd/MyAVD3_copy1.avd" +:+ newline] ∧
  ((chunk ∈ ini_writes "/home/user/.android/avd/MyAVD3_copy1.avd"
              "MyAVD3_copy1" lines →
    startswith chunk "path=" = true →
    chunk = "path=" +:+ "/home/user/.android/avd/MyAVD3_copy1.avd"
            +:+ newline) ∧
   (chunk ∈ config_writes "MyAVD3_copy1" lines →
    (startswith chunk "avd.id=" = true →
     chunk = "avd.id=" +:+ "MyAVD3_copy1" +:+ newline) ∧
    (startswith chunk "avd.name=" = true →
     chunk = "avd.name=" +:+ "MyAVD3_copy1" +:+ newline))).
Proof.
  intros lines chunk. split; [|split].
  - apply list_elem_of_lookup. by exists 1%nat.
  - vm_compute. reflexivity.
  - apply (clone_entries_fresh "/home/user/.android/avd/MyAVD3_copy1.avd"
             "MyAVD3_copy1" lines chunk).
    vm_compute. reflexivity.
Defined.
